(** * Threaded comment-and-vote store: a shallow embedding

    The development follows the TypeScript sources:
    - [src/api/auth.ts] (the shared session validator),
    - [src/api/comments.ts] (the comments router: thread builder, comment
      creation, vote ledger, cascade deleter and its own session validator),
    - [src/server.ts] (the per-user sliding-window rate limiter and the
      routes that consult it).

    Conventions.  Request bodies are untyped ([any]) in the sources, so the
    session object is embedded as a dynamically typed JavaScript value with
    [typeof], truthiness and property reads.  Numbers are integers (epoch
    milliseconds); [Date.now()] is an explicit parameter.  Plain objects used
    as dictionaries and [Map]/[Set] are finite maps and sets. *)

From stdpp Require Import base option list strings gmap fin_sets pretty sorting.
From Stdlib Require Import ZArith Lia Ascii.

Local Open Scope string_scope.
Local Open Scope list_scope.
Local Open Scope Z_scope.

#[local] Set Warnings "-clear-no-such-hyp".

(** ** JavaScript values, as far as the validators inspect them *)

#[warnings="-register-all"]
Inductive value :=
  | VUndef
  | VNull
  | VBool (b : bool)
  | VNum (n : Z)
  | VStr (s : string)
  | VArr (xs : list value)
  | VObj (fields : list (string * value)).

Inductive jstype := TUndefined | TObject | TBoolean | TNumber | TString.

#[global] Instance jstype_eq_dec : EqDecision jstype.
Proof. solve_decision. Defined.

(** [typeof v]; note that [typeof null] is ["object"], and so is an array's. *)
Definition typeof (v : value) : jstype :=
  match v with
  | VUndef => TUndefined
  | VNull => TObject
  | VBool _ => TBoolean
  | VNum _ => TNumber
  | VStr _ => TString
  | VArr _ => TObject
  | VObj _ => TObject
  end.

(** Truthiness, the meaning of [!v] and of [v && ...], [v || ...]. *)
Definition truthy (v : value) : bool :=
  match v with
  | VUndef | VNull => false
  | VBool b => b
  | VNum n => negb (n =? 0)%Z
  | VStr s => negb (bool_decide (s = ""))
  | VArr _ | VObj _ => true
  end.

Fixpoint assoc (k : string) (fields : list (string * value)) : value :=
  match fields with
  | [] => VUndef
  | (k', v) :: rest => if bool_decide (k = k') then v else assoc k rest
  end.

(** Property read [v.k] for the keys the validators use ([user], [id],
    [token], [expires]): only a plain object carries them.  The sources guard
    every read so that none happens on [null] or [undefined]. *)
Definition get (v : value) (k : string) : value :=
  match v with
  | VObj fields => assoc k fields
  | _ => VUndef
  end.

(** [a <= b] on numbers, used only after [typeof a === 'number']. *)
Definition num_le (v : value) (now : Z) : bool :=
  match v with
  | VNum n => (n <=? now)%Z
  | _ => false
  end.

Definition str_of (v : value) : string :=
  match v with
  | VStr s => s
  | _ => ""
  end.

(** [session.user.id], read after a validator accepted the session. *)
Definition sessionUserId (session : value) : string :=
  str_of (get (get session "user") "id").

(** ** Parsed documents as plain objects

    [db.comments] and [db.upvotes] come out of [JSON.parse] as plain
    objects: reading [obj[k]] gives the own property when there is one, and
    otherwise what [Object.prototype] holds under that name -- a function,
    or the prototype itself for [__proto__] -- which is truthy and no
    array. *)
Definition inheritedKeys : list string :=
  ["constructor"; "__defineGetter__"; "__defineSetter__"; "hasOwnProperty";
   "__lookupGetter__"; "__lookupSetter__"; "isPrototypeOf";
   "propertyIsEnumerable"; "toString"; "valueOf"; "__proto__"; "toLocaleString"].

Inductive property (A : Type) :=
  | Own (a : A)
  | Inherited
  | Missing.
Arguments Own {A} a.
Arguments Inherited {A}.
Arguments Missing {A}.

(** [obj[k]] *)
Definition readProp {A} (obj : gmap string A) (k : string) : property A :=
  match obj !! k with
  | Some a => Own a
  | None => if bool_decide (k ∈ inheritedKeys) then Inherited else Missing
  end.

(** [obj[k] || []], where the own properties are arrays: the array read, or
    nothing when the value is an inherited one, on which the array methods
    called next ([forEach], [includes], [push]) do not exist. *)
Definition arrayOrEmpty {A} (obj : gmap string (list A)) (k : string)
    : option (list A) :=
  match readProp obj k with
  | Own l => Some l
  | Missing => Some []
  | Inherited => None
  end.

(** A verdict together with the lines written by [console.warn]. *)
Definition verdict : Type := bool * list string.

(** ** src/api/auth.ts *)
Module Auth.

Definition validateSession (now : Z) (session : value) : verdict :=
  if negb (truthy session) || negb (bool_decide (typeof session = TObject)) then
    (false, ["Auth failed: Session is missing or not an object."])
  else if negb (truthy (get session "user"))
          || negb (bool_decide (typeof (get session "user") = TObject))
          || negb (bool_decide (typeof (get (get session "user") "id") = TString))
          || negb (truthy (get (get session "user") "id")) then
    (false, ["Auth failed: Invalid or missing user.id in session."])
  else if negb (bool_decide (typeof (get session "token") = TString))
          || negb (truthy (get session "token")) then
    (false, ["Auth failed: Invalid or missing token in session."])
  else if negb (bool_decide (typeof (get session "expires") = TNumber)) then
    (false, ["Auth failed: Invalid or missing expiration in session."])
  else if num_le (get session "expires") now then
    (false, ["Auth failed: Expired session for user "
               +:+ str_of (get (get session "user") "id") +:+ "."])
  else (true, []).

End Auth.

(** ** src/api/comments.ts *)
Module User.
(** An entry of [users.json], as far as the router reads it. *)
Record t := mk { id : string; name : string; role : string }.
End User.

Module Comments.

Definition validateSession (now : Z) (session : value) : verdict :=
  if negb (truthy session) || negb (bool_decide (typeof session = TObject)) then
    (false, ["Comments Auth failed: Session is missing or not an object."])
  else if negb (truthy (get session "user"))
          || negb (bool_decide (typeof (get session "user") = TObject))
          || negb (bool_decide (typeof (get (get session "user") "id") = TString))
          || negb (truthy (get (get session "user") "id")) then
    (false, ["Comments Auth failed: Invalid or missing user.id in session."])
  else if negb (bool_decide (typeof (get session "token") = TString))
          || negb (truthy (get session "token")) then
    (false, ["Comments Auth failed: Invalid or missing token in session."])
  else if negb (bool_decide (typeof (get session "expires") = TNumber)) then
    (false, ["Comments Auth failed: Invalid or missing expiration in session."])
  else if num_le (get session "expires") now then
    (false, ["Comments Auth failed: Expired session for user "
               +:+ str_of (get (get session "user") "id") +:+ "."])
  else (true, []).

(** A stored comment.  [parentId] is [null] ([None]) or a string; [date] is
    the instant that the stored ISO string denotes, in epoch milliseconds
    (what [new Date(c.date).getTime()] gives back); [rating] is [undefined]
    ([None]) or a number. *)
Record Comment := mkComment {
  id : string;
  parentId : option string;
  reviewer : string;
  userId : string;
  comment : string;
  date : Z;
  rating : option Z
}.

(** The persisted document [{ comments: {...}, upvotes: {...} }]. *)
Record Db := mkDb {
  comments : gmap string (list Comment);
  upvotes : gmap string (list string)
}.

(** The payload [commentData] of a creation request. *)
Record CommentData := mkCommentData {
  cd_parentId : option string;
  cd_comment : string;
  cd_rating : option Z
}.

#[warnings="-register-all"]
Inductive tree := Node (c : Comment) (replies : list tree).

Inductive body :=
  | Error (msg : string)
  | Thread (roots : list tree) (ups : gmap string (list string))
  | Created (c : Comment)
  | Upvotes (ids : list string)
  | Success
  | Uncaught (error : string).

Record response := mkResponse { status : nat; payload : body }.

(** A handler that throws: Express catches the exception and its default
    error handler answers 500; the router has no error handler of its own. *)
Definition throws (error : string) : response := mkResponse 500 (Uncaught error).

(** What a handler leaves behind: its response and, when it called
    [writeCommentsDb], the document it wrote. *)
Definition outcome : Type := response * option Db.

(** The document on disk after a handler ran. *)
Definition persisted (db : Db) (o : outcome) : Db := default db o.2.

(** [const sanitize = str => str.replace(/</g, "&lt;").replace(/>/g, "&gt;")] *)
Fixpoint sanitize (str : string) : string :=
  match str with
  | EmptyString => EmptyString
  | String a rest =>
      if bool_decide (a = "<"%char) then "&lt;" +:+ sanitize rest
      else if bool_decide (a = ">"%char) then "&gt;" +:+ sanitize rest
      else String a (sanitize rest)
  end.

(** Truthiness of a stored or submitted [parentId]. *)
Definition truthyId (p : option string) : bool :=
  match p with
  | Some s => truthy (VStr s)
  | None => false
  end.

(** [getUsers().find(u => u.id === uid)] *)
Definition findUser (users : list User.t) (uid : string) : option User.t :=
  List.find (λ u, bool_decide (User.id u = uid)) users.

(** *** GET: the thread builder

    The handler mutates the comment objects in place ([c.replies = []],
    [parent.replies.push(c)]) and keys them by id in a [Map], so two comments
    with one id share the later object as parent.  Objects are therefore
    named by their position in [movieComments]; the store of [replies]
    arrays is a list aligned with it. *)

(** First [forEach]: [c.replies = []; commentMap.set(c.id, c)]. *)
Definition indexStep (st : list (list nat) * gmap string nat) (ic : nat * Comment)
    : list (list nat) * gmap string nat :=
  (<[ic.1 := []]> st.1, <[id ic.2 := ic.1]> st.2).

Definition indexComments (movieComments : list Comment)
    : list (list nat) * gmap string nat :=
  foldl indexStep (replicate (length movieComments) [], ∅) (imap pair movieComments).

Definition commentMapOf (movieComments : list Comment) : gmap string nat :=
  (indexComments movieComments).2.

(** The parent object that the second [forEach] finds for [c], if any:
    [c.parentId && commentMap.has(c.parentId)], then [commentMap.get]. *)
Definition parentOf (commentMap : gmap string nat) (c : Comment) : option nat :=
  if truthyId (parentId c) then p ← parentId c; commentMap !! p else None.

(** Second [forEach]: push onto the parent's [replies] or onto
    [rootComments]. *)
Definition placeStep (commentMap : gmap string nat)
    (st : list (list nat) * list nat) (ic : nat * Comment)
    : list (list nat) * list nat :=
  match parentOf commentMap ic.2 with
  | Some j => (alter (λ rs, rs ++ [ic.1]) j st.1, st.2)
  | None => (st.1, st.2 ++ [ic.1])
  end.

Definition placeComments (movieComments : list Comment)
    : list (list nat) * list nat :=
  let '(replies0, commentMap) := indexComments movieComments in
  foldl (placeStep commentMap) (replies0, []) (imap pair movieComments).

Definition dateAt (movieComments : list Comment) (i : nat) : Z :=
  default 0 (date <$> movieComments !! i).

(** [rootComments.sort((a, b) => time(b) - time(a))]: the comparator is a
    total preorder on the instants, and [Array.prototype.sort] is stable, so
    the outcome is that of the stable insertion sort below. *)
Fixpoint insertRoot (key : nat → Z) (x : nat) (l : list nat) : list nat :=
  match l with
  | [] => [x]
  | y :: l' => if (key x <? key y)%Z then y :: insertRoot key x l' else x :: l
  end.

Definition sortRoots (key : nat → Z) (roots : list nat) : list nat :=
  foldr (insertRoot key) [] roots.

(** What [res.json] prints from an object: the comment with its [replies],
    recursively.  No result within the given depth stands for the
    serializer's failure on a cyclic structure. *)
Fixpoint render (fuel : nat) (movieComments : list Comment)
    (replies : list (list nat)) (i : nat) : option tree :=
  match fuel with
  | O => None
  | S fuel' =>
      c ← movieComments !! i;
      rs ← replies !! i;
      ts ← mapM (render fuel' movieComments replies) rs;
      Some (Node c ts)
  end.

Definition buildThread (movieComments : list Comment) : option (list tree) :=
  let '(replies, rootComments) := placeComments movieComments in
  mapM (render (S (length movieComments)) movieComments replies)
       (sortRoots (dateAt movieComments) rootComments).

(** [Object.fromEntries(Object.entries(db.upvotes).filter(([commentId]) =>
    commentMap.has(commentId)))] *)
Definition upvotesForMovie (db : Db) (commentMap : gmap string nat)
    : gmap string (list string) :=
  filter (λ kv, is_Some (commentMap !! kv.1)) (upvotes db).

(** [req.query.movieId] is absent ([None]) or a string. *)
Definition getHandler (db : Db) (movieId : option string) : option outcome :=
  match movieId with
  | Some m =>
      if truthy (VStr m) then
        match arrayOrEmpty (comments db) m with
        | Some movieComments =>
            roots ← buildThread movieComments;
            Some (mkResponse 200
                    (Thread roots (upvotesForMovie db (commentMapOf movieComments))),
                  None)
        | None => Some (throws "movieComments.forEach is not a function", None)
        end
      else Some (mkResponse 400 (Error "Movie ID is required"), None)
  | None => Some (mkResponse 400 (Error "Movie ID is required"), None)
  end.

(** *** POST: comment creation

    [Date.now()] is read for the id and the clock once more for [date]. *)
Definition newCommentOf (user : User.t) (commentData : CommentData)
    (nowId nowDate : Z) : Comment :=
  {| id := "comment_" +:+ pretty nowId;
     parentId := if truthyId (cd_parentId commentData)
                 then cd_parentId commentData else None;
     reviewer := User.name user;
     userId := User.id user;
     comment := sanitize (cd_comment commentData);
     date := nowDate;
     rating := if truthyId (cd_parentId commentData)
               then None else cd_rating commentData |}.

Definition postHandler (users : list User.t) (db : Db) (now nowId nowDate : Z)
    (movieId : string) (commentData : CommentData) (session : value) : outcome :=
  if negb (validateSession now session).1 then
    (mkResponse 401 (Error "Unauthorized"), None)
  else
    match findUser users (sessionUserId session) with
    | None => (mkResponse 404 (Error "User not found"), None)
    | Some user =>
        let newComment := newCommentOf user commentData nowId nowDate in
        (* [if (!db.comments[movieId]) db.comments[movieId] = [];
            db.comments[movieId].push(newComment)] *)
        match arrayOrEmpty (comments db) movieId with
        | Some movieComments =>
            let db' := {| comments := <[movieId := movieComments ++ [newComment]]>
                                        (comments db);
                          upvotes := upvotes db |} in
            (mkResponse 201 (Created newComment), Some db')
        | None => (throws "db.comments[movieId].push is not a function", None)
        end
    end.

(** *** PUT: toggle upvote *)
Definition toggle (upvoteUserIds : list string) (uid : string) : list string :=
  if bool_decide (uid ∈ upvoteUserIds)
  then filter (λ i, i ≠ uid) upvoteUserIds
  else upvoteUserIds ++ [uid].

Definition putHandler (db : Db) (now : Z) (commentId : string) (session : value)
    : outcome :=
  if negb (validateSession now session).1 then
    (mkResponse 401 (Error "Unauthorized"), None)
  else
    match arrayOrEmpty (upvotes db) commentId with
    | Some stored =>
        let upvoteUserIds := toggle stored (sessionUserId session) in
        (mkResponse 200 (Upvotes upvoteUserIds),
         Some {| comments := comments db;
                 upvotes := <[commentId := upvoteUserIds]> (upvotes db) |})
    | None => (throws "upvoteUserIds.includes is not a function", None)
    end.

(** *** DELETE: cascade delete *)

(** One step of the inner [forEach]:
    [if (c.parentId && commentsToDelete.has(c.parentId)) commentsToDelete.add(c.id)]. *)
Definition scanStep (commentsToDelete : gset string) (c : Comment) : gset string :=
  match parentId c with
  | Some p =>
      if truthyId (Some p) && bool_decide (p ∈ commentsToDelete)
      then commentsToDelete ∪ {[id c]}
      else commentsToDelete
  | None => commentsToDelete
  end.

Definition scan (movieComments : list Comment) (commentsToDelete : gset string)
    : gset string :=
  foldl scanStep commentsToDelete movieComments.

(** The [while (changed)] loop, bounded by [fuel] rounds. *)
Fixpoint closeLoop (fuel : nat) (movieComments : list Comment)
    (commentsToDelete : gset string) : option (gset string) :=
  match fuel with
  | O => None
  | S fuel' =>
      let next := scan movieComments commentsToDelete in
      if bool_decide (size commentsToDelete < size next)%nat
      then closeLoop fuel' movieComments next
      else Some next
  end.

Definition cascade (movieComments : list Comment) (commentId : string)
    : option (gset string) :=
  closeLoop (S (length movieComments)) movieComments {[commentId]}.

(** [commentsToDelete.forEach(id => delete db.upvotes[id])] *)
Definition dropUpvotes (commentsToDelete : gset string)
    (ups : gmap string (list string)) : gmap string (list string) :=
  set_fold (λ i m, delete i m) ups commentsToDelete.

Definition deleteHandler (users : list User.t) (db : Db) (now : Z)
    (movieId commentId : string) (session : value) : option outcome :=
  if negb (validateSession now session).1 then
    Some (mkResponse 401 (Error "Unauthorized"), None)
  else
    match findUser users (sessionUserId session) with
    | None => Some (mkResponse 403 (Error "Forbidden"), None)
    | Some user =>
        if negb (bool_decide (User.role user = "admin")) then
          Some (mkResponse 403 (Error "Forbidden"), None)
        else
          match arrayOrEmpty (comments db) movieId with
          | Some movieComments =>
              commentsToDelete ← cascade movieComments commentId;
              Some (mkResponse 200 Success,
                    Some {| comments :=
                              <[movieId := filter (λ c, id c ∉ commentsToDelete)
                                             movieComments]>
                                (comments db);
                            upvotes := dropUpvotes commentsToDelete (upvotes db) |})
          | None => Some (throws "movieComments.forEach is not a function", None)
          end
    end.

End Comments.

(** ** src/server.ts *)
Module Server.

(** [const userRequests = new Map<string, number[]>()] *)
Abbreviation limiter := (gmap string (list Z)).

Definition RATE_LIMIT_WINDOW_MS : Z := 60 * 1000.
Definition MAX_REQUESTS_PER_WINDOW : nat := 20.

(** [checkRateLimit(userId)]: the verdict [limited] and the map it leaves.
    [filter] builds a fresh array, so the stored one is replaced, never
    mutated in place. *)
Definition checkRateLimit (now : Z) (userId : string) (userRequests : limiter)
    : bool * limiter :=
  let timestamps := default [] (userRequests !! userId) in
  let recentTimestamps := filter (λ t, now - t < RATE_LIMIT_WINDOW_MS) timestamps in
  if bool_decide (MAX_REQUESTS_PER_WINDOW ≤ length recentTimestamps)%nat
  then (true, userRequests)
  else (false, <[userId := recentTimestamps ++ [now]]> userRequests).

(** How the checks that open a route end: with a response, or by letting the
    request through to the route's work. *)
Inductive guard := Refuse (status : nat) (error : string) | Pass.

(** [POST /api/azure-ai], up to the call of the model.  [configured] is
    [azureClient && azureDeploymentName]; the validator and the limiter each
    read the clock. *)
Definition azureAiGuard (configured : bool) (now nowLimit : Z) (session : value)
    (userRequests : limiter) : guard * limiter :=
  if negb configured then
    (Refuse 500 "Azure AI service not configured on the server.", userRequests)
  else if negb (Auth.validateSession now session).1 then
    (Refuse 401 "Unauthorized: Invalid session.", userRequests)
  else
    let r := checkRateLimit nowLimit (sessionUserId session) userRequests in
    if r.1 then (Refuse 429 "Too Many Requests.", r.2) else (Pass, r.2).

(** [POST /api/youtube-downloader], up to the test of the URL, whose outcome
    is [urlOk] ([url && /^…/.test(url)]). *)
Definition youtubeGuard (now nowLimit : Z) (urlOk : bool) (session : value)
    (userRequests : limiter) : guard * limiter :=
  if negb (Auth.validateSession now session).1 then
    (Refuse 401 "Unauthorized: You must be logged in to use this feature.",
     userRequests)
  else
    let r := checkRateLimit nowLimit (sessionUserId session) userRequests in
    if r.1 then (Refuse 429 "Too Many Requests.", r.2)
    else if negb urlOk then (Refuse 400 "Invalid YouTube URL.", r.2)
    else (Pass, r.2).

(** The requests that [app.use('/api/comments', commentsRouter)] serves. *)
Inductive commentsRequest :=
  | GetComments (movieId : option string)
  | PostComment (movieId : string) (commentData : Comments.CommentData)
      (session : value)
  | PutUpvote (commentId : string) (session : value)
  | DeleteComment (movieId commentId : string) (session : value).

(** What the process holds between requests: the limiter's map in memory
    and the comments document on disk. *)
Record state := mkState {
  userRequests : limiter;
  commentsDb : Comments.Db
}.

(** The router is mounted with no middleware of its own in front of it (only
    the JSON body parser): a request goes straight to its handler. *)
Definition commentsRouter (users : list User.t) (now nowId nowDate : Z)
    (req : commentsRequest) (st : state) : option (Comments.response * state) :=
  o ← match req with
      | GetComments movieId => Comments.getHandler (commentsDb st) movieId
      | PostComment movieId commentData session =>
          Some (Comments.postHandler users (commentsDb st) now nowId nowDate
                  movieId commentData session)
      | PutUpvote commentId session =>
          Some (Comments.putHandler (commentsDb st) now commentId session)
      | DeleteComment movieId commentId session =>
          Comments.deleteHandler users (commentsDb st) now movieId commentId session
      end;
  Some (o.1, {| userRequests := userRequests st;
                commentsDb := Comments.persisted (commentsDb st) o |}).

(** A run of checks for one user at the given clock readings: the verdicts
    in order and the map left at the end. *)
Fixpoint checks (times : list Z) (userId : string) (userRequests : limiter)
    : list bool * limiter :=
  match times with
  | [] => ([], userRequests)
  | now :: times' =>
      let r := checkRateLimit now userId userRequests in
      let rs := checks times' userId r.2 in
      (r.1 :: rs.1, rs.2)
  end.

End Server.

(** * Notions used in the statements *)

(** The list stored for a movie, empty when the movie has none. *)
Definition storedComments (db : Comments.Db) (movieId : string)
    : list Comments.Comment :=
  default [] (Comments.comments db !! movieId).

(** [k] reads as an array or as nothing in [obj]: it is an own key, or no
    name that plain objects inherit. *)
Definition arrayKey {A} (obj : gmap string A) (k : string) : Prop :=
  is_Some (obj !! k) ∨ k ∉ inheritedKeys.

(** [descendant movieComments commentId x]: [x] is [commentId], or the id of
    a comment of the list that names, by a non-empty [parentId], an id
    already known to be a descendant. *)
Inductive descendant (movieComments : list Comments.Comment) (commentId : string)
    : string → Prop :=
  | descendant_self : descendant movieComments commentId commentId
  | descendant_reply c p :
      c ∈ movieComments →
      Comments.parentId c = Some p →
      p ≠ "" →
      descendant movieComments commentId p →
      descendant movieComments commentId (Comments.id c).


(** [j] is the position of the last comment of the list whose id is [s]:
    the object that [commentMap.get(s)] gives. *)
Definition lastWithId (movieComments : list Comments.Comment) (s : string)
    (j : nat) : Prop :=
  (∃ c, movieComments !! j = Some c ∧ Comments.id c = s) ∧
  ∀ j' c', (j < j')%nat → movieComments !! j' = Some c' → Comments.id c' ≠ s.

(** The position of the parent that the thread builder finds for the
    comment at position [i]. *)
Definition parentIdx (movieComments : list Comments.Comment) (i : nat)
    : option nat :=
  c ← movieComments !! i;
  Comments.parentOf (Comments.commentMapOf movieComments) c.

(** The comments at the given positions, in that order. *)
Definition commentsAt (movieComments : list Comments.Comment) (positions : list nat)
    : list Comments.Comment :=
  omap (λ i, movieComments !! i) positions.

(** What a validator demands of a session, read off its five tests. *)
Definition acceptable (now : Z) (session : value) : Prop :=
  ∃ fields ufields uid token expires,
    session = VObj fields ∧
    assoc "user" fields = VObj ufields ∧
    assoc "id" ufields = VStr uid ∧ uid ≠ "" ∧
    assoc "token" fields = VStr token ∧ token ≠ "" ∧
    assoc "expires" fields = VNum expires ∧
    now < expires.

(** The comment operations that change the document. *)
Definition mutating (req : Server.commentsRequest) : bool :=
  match req with
  | Server.GetComments _ => false
  | _ => true
  end.

(** The ids of the list that a working set has not taken in yet: what bounds
    the number of rounds of the cascade. *)
Definition pending (movieComments : list Comments.Comment) (S : gset string)
    : gset string :=
  list_to_set (Comments.id <$> movieComments) ∖ S.

(** The reply arrays and the root array after the second pass of the thread
    builder has gone through the first [k] comments. *)
Definition placedUpTo (movieComments : list Comments.Comment) (k : nat)
    : list (list nat) * list nat :=
  ((λ j, filter (λ i, parentIdx movieComments i = Some j) (seq 0 k))
     <$> seq 0 (length movieComments),
   filter (λ i, parentIdx movieComments i = None) (seq 0 k)).

(** ** Notions for the further properties *)

(** [str.replace(/c/g, by)] for a one-character pattern [c]. *)
Fixpoint replaceAll (c : ascii) (by_ : string) (str : string) : string :=
  match str with
  | EmptyString => EmptyString
  | String a rest =>
      if bool_decide (a = c) then by_ +:+ replaceAll c by_ rest
      else String a (replaceAll c by_ rest)
  end.

(** [ancestry movieComments i l]: [l] is the path from the comment at
    position [i] up through the parents the thread builder finds, ending at
    a root. *)
Inductive ancestry (movieComments : list Comments.Comment) : nat → list nat → Prop :=
  | ancestry_root i :
      (i < length movieComments)%nat →
      parentIdx movieComments i = None →
      ancestry movieComments i [i]
  | ancestry_reply i p l :
      parentIdx movieComments i = Some p →
      ancestry movieComments p l →
      ancestry movieComments i (i :: l).

(** The comment at the top of a rendered tree. *)
Definition rootOf (t : Comments.tree) : Comments.Comment :=
  match t with Comments.Node c _ => c end.

(** Every reply in the tree names, by its [parentId], the id of the comment
    it hangs under. *)
#[warnings="-register-all"]
Inductive threaded : Comments.tree → Prop :=
  | threaded_node c ts :
      Forall (λ t, Comments.parentId (rootOf t) = Some (Comments.id c) ∧ threaded t) ts →
      threaded (Comments.Node c ts).


(** A run of checks by several users: each entry is a clock reading and the
    user checked at it. *)
Definition checkAll (requests : list (Z * string)) (userRequests : Server.limiter)
    : Server.limiter :=
  foldl (λ ur r, (Server.checkRateLimit r.1 r.2 ur).2) userRequests requests.

(** * Sample data *)
Module Sample.

Definition session_of (uid : string) (expires : Z) : value :=
  VObj [("token", VStr "t0k3n");
        ("user", VObj [("id", VStr uid); ("name", VStr "Ada")]);
        ("expires", VNum expires)].

Definition users : list User.t :=
  [User.mk "u1" "Ada" "user"; User.mk "u9" "Root" "admin"].

Definition cmt (i : string) (p : option string) (d : Z) : Comments.Comment :=
  Comments.mkComment i p "Ada" "u1" "text" d None.

(** A (root), B (parent A), C (parent B), B2 (parent A). *)
Definition family : list Comments.Comment :=
  [cmt "A" None 1000; cmt "B" (Some "A") 2000; cmt "C" (Some "B") 3000;
   cmt "B2" (Some "A") 4000].

Definition familyDb : Comments.Db :=
  Comments.mkDb {[ "m" := family ]}
    (<["A" := ["u1"]]> (<["B" := ["u1"; "u9"]]> (<["C" := []]> {[ "B2" := ["u9"] ]}))).




(** Twenty requests of user u1, one per second from 1000 on. *)
Definition twentyStamps : list Z := (λ k : nat, 1000 + 1000 * Z.of_nat k) <$> seq 0 20.

Definition busy : Server.limiter := {[ "u1" := twentyStamps ]}.

Definition emptyDb : Comments.Db := Comments.mkDb ∅ ∅.

Definition payload : Comments.CommentData :=
  Comments.mkCommentData None "nice <b>film</b>" (Some 5).

Definition replyPayload : Comments.CommentData :=
  Comments.mkCommentData (Some "A") "agreed" (Some 4).

End Sample.

(** * Tactics *)

Ltac validator_accepts :=
  intros H;
  repeat match type of H with
    | context [if ?b then _ else _] =>
        let Hb := fresh "Hb" in destruct b eqn:Hb; [discriminate H|]
    end;
  repeat match goal with
    | Hb : _ || _ = false |- _ => apply orb_false_iff in Hb as [? ?]
    | Hb : negb _ = false |- _ => apply negb_false_iff in Hb
    end.

(** * Theorems *)

(** * The session validators *)

Lemma truthyId_Some (p : string) : Comments.truthyId (Some p) = true ↔ p ≠ "".
Proof.
  unfold Comments.truthyId, truthy. rewrite negb_true_iff, bool_decide_eq_false. done.
Qed.

(** * Reads of plain objects *)

Lemma arrayOrEmpty_arrayKey {A} (obj : gmap string (list A)) (k : string) :
  arrayKey obj k → arrayOrEmpty obj k = Some (default [] (obj !! k)).
Proof.
  unfold arrayKey, arrayOrEmpty, readProp. intros [[l ->]|Hk]; [done|].
  destruct (obj !! k); [done|]. by rewrite bool_decide_false.
Qed.

Lemma arrayOrEmpty_None {A} (obj : gmap string (list A)) (k : string) :
  arrayOrEmpty obj k = None ↔ ¬ arrayKey obj k.
Proof.
  unfold arrayKey, arrayOrEmpty, readProp. destruct (obj !! k) as [l|].
  - split; [done|]. intros Hn. exfalso. apply Hn. left. by exists l.
  - case_bool_decide as Hk.
    + split; [|done]. intros _ [[? [=]]|?]. done.
    + split; [done|]. intros Hn. exfalso. apply Hn. by right.
Qed.

(** * Cascade delete *)
Section cascade.
Import Comments.
Local Open Scope nat_scope.

Implicit Types (mc : list Comment) (S T : gset string).

Lemma scanStep_spec S c x :
  x ∈ scanStep S c ↔
  x ∈ S ∨ (x = id c ∧ ∃ p, parentId c = Some p ∧ p ≠ "" ∧ p ∈ S).
Proof.
  unfold scanStep. destruct (parentId c) as [p|] eqn:Hp.
  - destruct (truthyId (Some p)) eqn:Ht; simpl.
    + apply truthyId_Some in Ht.
      case_bool_decide; [rewrite elem_of_union, elem_of_singleton|]; naive_solver.
    + assert (¬ p ≠ "") by (rewrite <- truthyId_Some; congruence). naive_solver.
  - naive_solver.
Qed.

Lemma scanStep_incl S c : S ⊆ scanStep S c.
Proof. intros x ?. apply scanStep_spec. by left. Qed.

Lemma scan_incl mc S : S ⊆ scan mc S.
Proof.
  unfold scan. revert S. induction mc as [|c mc IH]; intros S; simpl; [done|].
  etrans; [apply (scanStep_incl S c)|apply IH].
Qed.

(** Whatever a scan adds is the id of a comment of the list. *)
Lemma scan_ids mc S x : x ∈ scan mc S → x ∈ S ∨ x ∈ id <$> mc.
Proof.
  unfold scan. revert S. induction mc as [|c mc IH]; intros S; simpl; [by left|].
  intros [Hx|?]%IH; [|right; by constructor 2].
  apply scanStep_spec in Hx as [?|[-> _]]; [by left|right; constructor].
Qed.

(** A scan stays inside the descendants. *)
Lemma scan_sound (l : list Comment) mc commentId S :
  l ⊆ mc →
  (∀ x, x ∈ S → descendant mc commentId x) →
  ∀ x, x ∈ foldl scanStep S l → descendant mc commentId x.
Proof.
  revert S. induction l as [|c l IH]; intros S Hl HS; simpl; [done|].
  apply IH; [set_solver|].
  intros x [?|[-> (p & Hp & Hne & HpS)]]%scanStep_spec; [by apply HS|].
  eapply descendant_reply; eauto. apply Hl. constructor.
Qed.

(** A scan that adds nothing found the set closed under replies. *)
Lemma scan_fixed mc S :
  scan mc S = S →
  ∀ c p, c ∈ mc → parentId c = Some p → p ≠ "" → p ∈ S → id c ∈ S.
Proof.
  unfold scan. intros Hfix c p Hc Hp Hne HpS.
  apply list_elem_of_split in Hc as (l1 & l2 & ->).
  rewrite foldl_app in Hfix. simpl in Hfix.
  rewrite <- Hfix.
  apply (scan_incl l2). apply scanStep_spec. right. split; [done|].
  exists p. split_and!; [done..|]. by apply (scan_incl l1).
Qed.

Lemma closed_complete mc commentId S :
  commentId ∈ S →
  (∀ c p, c ∈ mc → parentId c = Some p → p ≠ "" → p ∈ S → id c ∈ S) →
  ∀ x, descendant mc commentId x → x ∈ S.
Proof. intros ? Hcl x. induction 1; eauto. Qed.

Lemma size_list_to_set_le (l : list string) :
  size (list_to_set (C:=gset string) l) ≤ length l.
Proof.
  unfold size, set_size. simpl. apply submseteq_length, NoDup_submseteq.
  - apply NoDup_elements.
  - intros x. rewrite elem_of_elements, elem_of_list_to_set. done.
Qed.

Lemma pending_bound mc S : size (pending mc S) ≤ length mc.
Proof.
  unfold pending. etrans; [apply subseteq_size, subseteq_difference_l; reflexivity|].
  etrans; [apply size_list_to_set_le|]. by rewrite length_fmap.
Qed.

Lemma scan_progress mc S :
  size S < size (scan mc S) → size (pending mc (scan mc S)) < size (pending mc S).
Proof.
  intros Hlt. apply subset_size. unfold pending.
  assert (∃ x, x ∈ scan mc S ∧ x ∉ S) as (x & Hx & HxS).
  { pose proof (scan_incl mc S) as Hincl.
    destruct (size_pos_elem_of (scan mc S ∖ S)) as [x Hx].
    - rewrite size_difference by done. lia.
    - exists x. set_solver. }
  pose proof (scan_incl mc S).
  split; [set_solver|].
  intros Hsub. destruct (scan_ids _ _ _ Hx) as [?|Hid]; [done|].
  assert (x ∈ list_to_set (C:=gset string) (id <$> mc) ∖ S) as Hin.
  { apply elem_of_difference. split; [by apply elem_of_list_to_set|done]. }
  apply Hsub in Hin. set_solver.
Qed.

Lemma closeLoop_spec fuel mc commentId S :
  size (pending mc S) < fuel →
  commentId ∈ S →
  (∀ x, x ∈ S → descendant mc commentId x) →
  ∃ T, closeLoop fuel mc S = Some T ∧ ∀ x, x ∈ T ↔ descendant mc commentId x.
Proof.
  revert S. induction fuel as [|fuel IH]; intros S Hfuel Hseed Hsound; [lia|].
  simpl. pose proof (scan_incl mc S) as Hincl.
  assert (∀ x, x ∈ scan mc S → descendant mc commentId x) as Hsound'.
  { by apply scan_sound. }
  case_bool_decide as Hgrow.
  - apply IH; [|by apply Hincl|done].
    pose proof (scan_progress _ _ Hgrow). lia.
  - assert (scan mc S = S) as Hfix.
    { symmetry. apply set_subseteq_size_eq; [done|lia]. }
    exists (scan mc S). split; [done|]. intros x. split; [by apply Hsound'|].
    rewrite Hfix. apply closed_complete; [done|]. by apply scan_fixed.
Qed.

Lemma cascade_spec mc commentId :
  ∃ T, cascade mc commentId = Some T ∧ ∀ x, x ∈ T ↔ descendant mc commentId x.
Proof.
  unfold cascade. apply closeLoop_spec.
  - pose proof (pending_bound mc {[commentId]}). lia.
  - set_solver.
  - intros x ->%elem_of_singleton. constructor.
Qed.

Lemma lookup_dropUpvotes T (ups : gmap string (list string)) k :
  dropUpvotes T ups !! k = if decide (k ∈ T) then None else ups !! k.
Proof.
  unfold dropUpvotes.
  pose (P := λ (m : gmap string (list string)) (X : gset string),
          (k ∈ X → m !! k = None) ∧ (k ∉ X → m !! k = ups !! k)).
  assert (P (set_fold (λ i m, delete i m) ups T) T) as [Hin Hout].
  { apply (set_fold_ind_L P); unfold P.
    - split; [set_solver|done].
    - intros x X m Hx [IHin IHout]. split.
      + intros [->%elem_of_singleton|?]%elem_of_union.
        * apply lookup_delete_eq.
        * destruct (decide (k = x)) as [->|?]; [apply lookup_delete_eq|].
          rewrite lookup_delete_ne by done. auto.
      + intros Hk. rewrite lookup_delete_ne by set_solver. apply IHout. set_solver. }
  destruct (decide (k ∈ T)); auto.
Qed.

End cascade.




(** * Lists *)
Lemma filter_none {A} (P : A → Prop) `{∀ x, Decision (P x)} (l : list A) :
  (∀ x, x ∈ l → ¬ P x) → filter P l = [].
Proof.
  induction l as [|a l IH]; intros Hl; [done|].
  rewrite filter_cons_False by (apply Hl; constructor).
  apply IH. intros x ?. apply Hl. by constructor.
Qed.

Lemma filter_all {A} (P : A → Prop) `{∀ x, Decision (P x)} (l : list A) :
  (∀ x, x ∈ l → P x) → filter P l = l.
Proof.
  induction l as [|a l IH]; intros Hl; [done|].
  rewrite filter_cons_True by (apply Hl; constructor).
  f_equal. apply IH. intros x ?. apply Hl. by constructor.
Qed.

(** * Toggle upvote *)
Section toggle.
Import Comments.
Implicit Types (l : list string) (uid x : string).


Lemma toggle_absent l uid : uid ∉ l → toggle l uid = l ++ [uid].
Proof. intros Hin. unfold toggle. by rewrite bool_decide_false. Qed.





End toggle.




(** * The session validators *)

Lemma truthy_VStr s : truthy (VStr s) = true ↔ s ≠ "".
Proof. unfold truthy. by rewrite negb_true_iff, bool_decide_eq_false. Qed.

Lemma typeof_TString v : bool_decide (typeof v = TString) = true → ∃ s, v = VStr s.
Proof. destruct v; try discriminate. eauto. Qed.

Lemma typeof_TNumber v : bool_decide (typeof v = TNumber) = true → ∃ n, v = VNum n.
Proof. destruct v; try discriminate. eauto. Qed.

Lemma acceptable_of_tests now session :
  truthy session = true →
  bool_decide (typeof session = TObject) = true →
  truthy (get session "user") = true →
  bool_decide (typeof (get session "user") = TObject) = true →
  bool_decide (typeof (get (get session "user") "id") = TString) = true →
  truthy (get (get session "user") "id") = true →
  bool_decide (typeof (get session "token") = TString) = true →
  truthy (get session "token") = true →
  bool_decide (typeof (get session "expires") = TNumber) = true →
  num_le (get session "expires") now = false →
  acceptable now session.
Proof.
  intros Hs _ Hu _ [uid Hid]%typeof_TString Huid [tok Htok]%typeof_TString Htk
    [e He]%typeof_TNumber Hle.
  destruct session as [| | | | | |fields]; simpl in *;
    try discriminate; try (by rewrite Hid in Huid).
  destruct (assoc "user" fields) as [| | | | | |ufields] eqn:Huser; simpl in *;
    try discriminate.
  rewrite Hid in Huid. rewrite Htok in Htk. rewrite He in Hle. simpl in Hle.
  apply truthy_VStr in Huid, Htk. apply Z.leb_gt in Hle.
  exists fields, ufields, uid, tok, e. done.
Qed.

Lemma tests_of_acceptable now session :
  acceptable now session →
  truthy session = true ∧
  bool_decide (typeof session = TObject) = true ∧
  truthy (get session "user") = true ∧
  bool_decide (typeof (get session "user") = TObject) = true ∧
  bool_decide (typeof (get (get session "user") "id") = TString) = true ∧
  truthy (get (get session "user") "id") = true ∧
  bool_decide (typeof (get session "token") = TString) = true ∧
  truthy (get session "token") = true ∧
  bool_decide (typeof (get session "expires") = TNumber) = true ∧
  num_le (get session "expires") now = false.
Proof.
  intros (fields & ufields & uid & tok & e & -> & Hu & Hid & Huid & Htok & Htk & He & Hlt).
  simpl. rewrite Hu, Htok, He. simpl. rewrite Hid.
  split_and!; try done; try (by apply truthy_VStr). simpl. by apply Z.leb_gt.
Qed.

Lemma Auth_accepts_iff now session :
  (Auth.validateSession now session).1 = true ↔ acceptable now session.
Proof.
  split.
  - unfold Auth.validateSession. validator_accepts. by apply acceptable_of_tests.
  - intros (?&?&?&?&?&?&?&?&?&?)%tests_of_acceptable.
    unfold Auth.validateSession.
    repeat match goal with H : _ = _ |- _ => rewrite H; clear H end. done.
Qed.

Lemma Comments_accepts_iff now session :
  (Comments.validateSession now session).1 = true ↔ acceptable now session.
Proof.
  split.
  - unfold Comments.validateSession. validator_accepts. by apply acceptable_of_tests.
  - intros (?&?&?&?&?&?&?&?&?&?)%tests_of_acceptable.
    unfold Comments.validateSession.
    repeat match goal with H : _ = _ |- _ => rewrite H; clear H end. done.
Qed.

Lemma acceptable_not_expired now session e :
  get session "expires" = VNum e → acceptable now session → now < e.
Proof.
  intros He (fields & ? & ? & ? & e' & -> & _ & _ & _ & _ & _ & He' & Hlt).
  simpl in He. congruence.
Qed.

(** C6.  Each of the two validators accepts a session exactly when it is an
    object with a [user] object whose [id] is a non-empty string, a [token]
    that is a non-empty string and an [expires] that is a number strictly
    greater than the clock reading; so a session whose [expires] is at or
    before the clock reading is rejected by both, whatever else it holds. *)
Theorem C6_validateSession_accepts (now : Z) (session : value) :
  ((Auth.validateSession now session).1 = true ↔ acceptable now session) ∧
  ((Comments.validateSession now session).1 = true ↔ acceptable now session) ∧
  (∀ e, get session "expires" = VNum e → e ≤ now →
        (Auth.validateSession now session).1 = false ∧
        (Comments.validateSession now session).1 = false).
Proof.
  split; [apply Auth_accepts_iff|]. split; [apply Comments_accepts_iff|].
  intros e He Hle. split; apply not_true_is_false.
  - intros Ha%Auth_accepts_iff. pose proof (acceptable_not_expired _ _ _ He Ha). lia.
  - intros Ha%Comments_accepts_iff. pose proof (acceptable_not_expired _ _ _ He Ha). lia.
Qed.

Lemma C6_validateSession_accepts_sample :
  (Auth.validateSession 5000 (Sample.session_of "u1" 5000)).1 = false ∧
  (Comments.validateSession 5000 (Sample.session_of "u1" 5000)).1 = false.
Proof.
  exact (proj2 (proj2 (C6_validateSession_accepts 5000 (Sample.session_of "u1" 5000)))
           5000 eq_refl (Z.le_refl 5000)).
Defined.

(** C10.  The validator of the comments router and the one of the auth
    module return the same verdict on every session at every clock reading
    (the lines they log differ in their prefix only). *)
Theorem C10_validators_agree (now : Z) (session : value) :
  (Comments.validateSession now session).1 = (Auth.validateSession now session).1.
Proof.
  unfold Comments.validateSession, Auth.validateSession.
  repeat match goal with
    | |- context [if ?b then _ else _] => destruct b
    end; reflexivity.
Qed.

(** * Deleting without the administrative role *)

(** C5 (amended).  When the user id of the session resolves to no user with
    the role [admin], the delete handler writes nothing, so the document
    stays as it was; it answers 403 Forbidden when the session is valid and
    401 Unauthorized when it is not. *)
Theorem C5_delete_needs_admin (users : list User.t) (db : Comments.Db) (now : Z)
    (movieId commentId : string) (session : value) :
  (∀ u, Comments.findUser users (sessionUserId session) = Some u →
        User.role u ≠ "admin") →
  ∃ r,
    Comments.deleteHandler users db now movieId commentId session = Some (r, None) ∧
    Comments.persisted db (r, None) = db ∧
    r = if (Comments.validateSession now session).1
        then Comments.mkResponse 403 (Comments.Error "Forbidden")
        else Comments.mkResponse 401 (Comments.Error "Unauthorized").
Proof.
  intros Hrole. unfold Comments.deleteHandler.
  destruct (Comments.validateSession now session).1; simpl; [|eauto].
  destruct (Comments.findUser users (sessionUserId session)) as [u|] eqn:Hu; [|eauto].
  rewrite bool_decide_false by by apply Hrole. simpl. eauto.
Qed.

Lemma C5_delete_needs_admin_sample :
  Comments.deleteHandler Sample.users Sample.familyDb 5000 "m" "A"
      (Sample.session_of "u1" 9000)
    = Some (Comments.mkResponse 403 (Comments.Error "Forbidden"), None).
Proof.
  destruct (C5_delete_needs_admin Sample.users Sample.familyDb 5000 "m" "A"
              (Sample.session_of "u1" 9000)) as (r & Hrun & _ & ->).
  - intros u [= <-]. discriminate.
  - exact Hrun.
Defined.

Lemma C5_expired_session_is_unauthorized :
  Comments.findUser Sample.users (sessionUserId (Sample.session_of "u1" 4000))
    = Some (User.mk "u1" "Ada" "user") ∧
  Comments.deleteHandler Sample.users Sample.familyDb 5000 "m" "A"
      (Sample.session_of "u1" 4000)
    = Some (Comments.mkResponse 401 (Comments.Error "Unauthorized"), None).
Proof. split; reflexivity. Qed.

(** * Comment creation *)

Lemma postHandler_Created users db now nowId nowDate movieId commentData session c :
  (Comments.postHandler users db now nowId nowDate movieId commentData session).1
    = Comments.mkResponse 201 (Comments.Created c) →
  ∃ user, c = Comments.newCommentOf user commentData nowId nowDate.
Proof.
  unfold Comments.postHandler. destruct (negb _); [done|].
  destruct (Comments.findUser _ _) as [user|]; [|done].
  destruct (arrayOrEmpty _ _); [|done]. simpl. intros [= <-]. by exists user.
Qed.

Lemma postHandler_run users db now nowId nowDate movieId commentData session user :
  (Comments.validateSession now session).1 = true →
  Comments.findUser users (sessionUserId session) = Some user →
  arrayKey (Comments.comments db) movieId →
  Comments.postHandler users db now nowId nowDate movieId commentData session
    = (Comments.mkResponse 201
         (Comments.Created (Comments.newCommentOf user commentData nowId nowDate)),
       Some (Comments.mkDb
               (<[movieId := storedComments db movieId
                               ++ [Comments.newCommentOf user commentData nowId nowDate]]>
                  (Comments.comments db))
               (Comments.upvotes db))).
Proof.
  intros Hvalid Huser Hkey%arrayOrEmpty_arrayKey. unfold Comments.postHandler.
  rewrite Hvalid, Huser. simpl. by rewrite Hkey.
Qed.

(** C8.  Whenever the creation answers with a comment, that comment's
    [rating] is absent if its [parentId] is set -- even if the payload
    carried a rating -- and is the payload's rating if its [parentId] is
    null; the [parentId] is set exactly when the payload's is a non-empty
    string.  A valid session of a known user does get such an answer (201,
    the comment appended to the list of the movie) when [movieId] is an own
    key of the comments of the document or no name that objects inherit. *)
Theorem C8_rating_only_on_roots (users : list User.t) (db : Comments.Db)
    (now nowId nowDate : Z) (movieId : string) (commentData : Comments.CommentData)
    (session : value) :
  (∀ c,
     (Comments.postHandler users db now nowId nowDate movieId commentData session).1
       = Comments.mkResponse 201 (Comments.Created c) →
     (Comments.parentId c ≠ None → Comments.rating c = None) ∧
     (Comments.parentId c = None →
      Comments.rating c = Comments.cd_rating commentData) ∧
     (∀ p, Comments.parentId c = Some p ↔
           Comments.cd_parentId commentData = Some p ∧ p ≠ "")) ∧
  (∀ user,
     (Comments.validateSession now session).1 = true →
     Comments.findUser users (sessionUserId session) = Some user →
     arrayKey (Comments.comments db) movieId →
     ∃ c db',
       Comments.postHandler users db now nowId nowDate movieId commentData session
         = (Comments.mkResponse 201 (Comments.Created c), Some db') ∧
       Comments.comments db' !! movieId = Some (storedComments db movieId ++ [c])).
Proof.
  split.
  - intros c [user ->]%postHandler_Created. simpl.
    destruct (Comments.cd_parentId commentData) as [p|] eqn:Hp; simpl.
    + destruct (decide (p = "")) as [->|Hne].
      * simpl. naive_solver.
      * rewrite bool_decide_false by done. simpl. naive_solver.
    + naive_solver.
  - intros user Hvalid Huser Hkey.
    rewrite (postHandler_run _ _ _ _ _ _ _ _ user) by done.
    eexists _, _. split; [reflexivity|]. simpl. apply lookup_insert_eq.
Qed.

Lemma C8_rating_only_on_roots_sample :
  ∃ c db',
    Comments.postHandler Sample.users Sample.familyDb 5000 5001 5002 "m"
        Sample.replyPayload (Sample.session_of "u1" 9000)
      = (Comments.mkResponse 201 (Comments.Created c), Some db') ∧
    Comments.parentId c = Some "A" ∧ Comments.rating c = None.
Proof.
  destruct (C8_rating_only_on_roots Sample.users Sample.familyDb 5000 5001 5002 "m"
              Sample.replyPayload (Sample.session_of "u1" 9000)) as [Hshape Hrun].
  destruct (Hrun (User.mk "u1" "Ada" "user") eq_refl eq_refl)
    as (c & db' & Hpost & _); [left; by eexists|].
  destruct (Hshape c) as (Hreply & _ & Hp); [by rewrite Hpost|].
  exists c, db'. split; [exact Hpost|].
  assert (Comments.parentId c = Some "A") as HA by (apply Hp; split; done).
  split; [exact HA|]. apply Hreply. rewrite HA. discriminate.
Defined.

(** C9 (not kept by the code).  The id of a new comment is the text
    [comment_] followed by the clock reading in milliseconds: two creations
    for a movie (whose id is an own key of the comments of the document or
    no name that objects inherit) get the same id exactly when they read the
    same millisecond, and then both comments are stored under that one
    id. *)
Theorem C9_id_is_the_clock_reading (users : list User.t) (db : Comments.Db)
    (now now' nowId nowId' nowDate nowDate' : Z) (movieId : string)
    (commentData commentData' : Comments.CommentData) (session session' : value)
    (user user' : User.t) :
  (Comments.validateSession now session).1 = true →
  Comments.findUser users (sessionUserId session) = Some user →
  (Comments.validateSession now' session').1 = true →
  Comments.findUser users (sessionUserId session') = Some user' →
  arrayKey (Comments.comments db) movieId →
  let o := Comments.postHandler users db now nowId nowDate movieId commentData
             session in
  let db1 := Comments.persisted db o in
  let o' := Comments.postHandler users db1 now' nowId' nowDate' movieId commentData'
              session' in
  ∃ c c',
    o.1 = Comments.mkResponse 201 (Comments.Created c) ∧
    o'.1 = Comments.mkResponse 201 (Comments.Created c') ∧
    Comments.comments (Comments.persisted db1 o') !! movieId
      = Some (storedComments db movieId ++ [c; c']) ∧
    (Comments.id c = Comments.id c' ↔ nowId = nowId').
Proof.
  intros Hvalid Huser Hvalid' Huser' Hkey.
  rewrite (postHandler_run _ _ _ _ _ _ _ _ user) by done. simpl.
  rewrite (postHandler_run _ _ _ _ _ _ _ _ user')
    by (try done; left; simpl; rewrite lookup_insert_eq; by eexists).
  eexists _, _. split; [reflexivity|]. split; [reflexivity|]. simpl. split.
  - rewrite lookup_insert_eq. unfold storedComments at 1. simpl.
    rewrite lookup_insert_eq. simpl. by rewrite <- app_assoc.
  - split; [|by intros ->].
    intros Heq. apply (inj (String.app "comment_")) in Heq.
    by apply (inj pretty) in Heq.
Qed.

Lemma C9_same_millisecond_same_id :
  ∃ c c',
    Comments.comments
      (Comments.persisted
         (Comments.persisted Sample.emptyDb
            (Comments.postHandler Sample.users Sample.emptyDb 5000 7000 7000 "m"
               Sample.payload (Sample.session_of "u1" 9000)))
         (Comments.postHandler Sample.users
            (Comments.persisted Sample.emptyDb
               (Comments.postHandler Sample.users Sample.emptyDb 5000 7000 7000 "m"
                  Sample.payload (Sample.session_of "u1" 9000)))
            5000 7000 7000 "m" Sample.replyPayload (Sample.session_of "u9" 9000)))
      !! "m" = Some [c; c'] ∧
    Comments.id c = Comments.id c' ∧
    Comments.userId c ≠ Comments.userId c'.
Proof.
  destruct (C9_id_is_the_clock_reading Sample.users Sample.emptyDb 5000 5000 7000
              7000 7000 7000 "m" Sample.payload Sample.replyPayload
              (Sample.session_of "u1" 9000) (Sample.session_of "u9" 9000)
              (User.mk "u1" "Ada" "user") (User.mk "u9" "Root" "admin")
              eq_refl eq_refl eq_refl eq_refl)
    as (c & c' & Hc & Hc' & Hstored & Hid).
  { right. apply (bool_decide_unpack _). vm_compute. exact I. }
  exists c, c'. split; [exact Hstored|]. split; [by apply Hid|].
  injection Hc as <-. injection Hc' as <-. discriminate.
Defined.

(** * The rate limiter *)
Section limiter.
Import Server.
Implicit Types (ur : limiter) (ts times : list Z).

Lemma checkRateLimit_limited now userId ur :
  (MAX_REQUESTS_PER_WINDOW
     ≤ length (filter (λ t, (now - t < RATE_LIMIT_WINDOW_MS)%Z)
                 (default [] (ur !! userId))))%nat →
  checkRateLimit now userId ur = (true, ur).
Proof. intros Hfull. unfold checkRateLimit. by rewrite bool_decide_true. Qed.

Lemma checkRateLimit_passed now userId ur :
  (length (filter (λ t, (now - t < RATE_LIMIT_WINDOW_MS)%Z)
             (default [] (ur !! userId)))
     < MAX_REQUESTS_PER_WINDOW)%nat →
  checkRateLimit now userId ur
    = (false, <[userId := filter (λ t, now - t < RATE_LIMIT_WINDOW_MS)
                            (default [] (ur !! userId)) ++ [now]]> ur).
Proof.
  intros Hroom. unfold checkRateLimit. rewrite bool_decide_false by lia. done.
Qed.

Lemma checks_app times1 times2 userId ur :
  checks (times1 ++ times2) userId ur
    = ((checks times1 userId ur).1 ++ (checks times2 userId (checks times1 userId ur).2).1,
       (checks times2 userId (checks times1 userId ur).2).2).
Proof.
  revert ur. induction times1 as [|t times1 IH]; intros ur; simpl.
  - by destruct (checks times2 userId ur).
  - by rewrite IH.
Qed.

(** While the recorded stamps and the coming clock readings all lie in one
    window and fewer than the ceiling are at stake, every check passes and
    records its reading. *)
Lemma checks_all_pass lo times userId ur :
  Forall (λ t, lo ≤ t < lo + RATE_LIMIT_WINDOW_MS) (default [] (ur !! userId) ++ times) →
  (length (default [] (ur !! userId)) + length times ≤ MAX_REQUESTS_PER_WINDOW)%nat →
  (checks times userId ur).1 = replicate (length times) false ∧
  default [] ((checks times userId ur).2 !! userId)
    = default [] (ur !! userId) ++ times.
Proof.
  revert ur. induction times as [|t times IH]; intros ur Hwin Hlen; simpl.
  - by rewrite app_nil_r.
  - set (stored := default [] (ur !! userId)) in *.
    apply Forall_app in Hwin as [Hst Htimes].
    apply Forall_cons in Htimes as [Ht Htimes].
    assert (filter (λ s, t - s < RATE_LIMIT_WINDOW_MS) stored = stored) as Hkeep.
    { apply filter_all. intros s Hs. rewrite Forall_forall in Hst.
      specialize (Hst s Hs). lia. }
    rewrite checkRateLimit_passed; fold stored; rewrite Hkeep;
      [|simpl in Hlen; lia].
    simpl. specialize (IH (<[userId := stored ++ [t]]> ur)).
    rewrite lookup_insert_eq in IH. simpl in IH.
    destruct IH as [IH1 IH2].
    + rewrite <- app_assoc. simpl. apply Forall_app. split; [done|]. by constructor.
    + rewrite length_app. simpl in *. lia.
    + rewrite IH1, IH2. by rewrite <- app_assoc.
Qed.

End limiter.

(** C7.  A check keeps the stamps of the user that are less than 60 000 ms
    old; with 20 or more of them it answers [limited] and leaves the map as
    it is, otherwise it stores the kept stamps followed by the clock reading
    and lets the request pass.  Hence, for a user with no record, 21
    requests at readings that lie in one window of 60 000 ms are answered
    with 20 passes and a rejection, and a later request at a reading at
    least 60 000 ms past all of them passes. *)
Theorem C7_sliding_window (userId : string) (ur : Server.limiter) :
  (∀ now,
     let kept := filter (λ t, now - t < 60000) (default [] (ur !! userId)) in
     (∀ t, t ∈ kept ↔ t ∈ default [] (ur !! userId) ∧ ¬ (60000 ≤ now - t)) ∧
     Server.checkRateLimit now userId ur
       = if decide (20 ≤ length kept)%nat then (true, ur)
         else (false, <[userId := kept ++ [now]]> ur)) ∧
  (∀ lo times t21 t22,
     ur !! userId = None →
     length times = 20%nat →
     Forall (λ t, lo ≤ t < lo + 60000) (times ++ [t21]) →
     Forall (λ t, 60000 ≤ t22 - t) times →
     (Server.checks (times ++ [t21]) userId ur).1 = replicate 20 false ++ [true] ∧
     (Server.checks (times ++ [t21; t22]) userId ur).1
       = replicate 20 false ++ [true; false]).
Proof.
  split.
  - intros now kept. split.
    + intros t. unfold kept. rewrite list_elem_of_filter.
      split; (intros [? ?]; split; [first [done|lia]..]).
    + unfold Server.checkRateLimit. fold kept.
      change Server.MAX_REQUESTS_PER_WINDOW with 20%nat.
      by destruct (decide (20 ≤ length kept)%nat);
        [rewrite bool_decide_true|rewrite bool_decide_false].
  - intros lo times t21 t22 Hnew Hlen Hwin Hold.
    apply Forall_app in Hwin as [Htimes Ht21].
    rewrite Forall_singleton in Ht21.
    pose proof (checks_all_pass lo times userId ur) as Hrun.
    rewrite Hnew in Hrun. simpl in Hrun.
    destruct Hrun as [Hpass Hstored];
      [done|rewrite Hlen; unfold Server.MAX_REQUESTS_PER_WINDOW; lia|].
     rewrite Hlen in Hpass.
    assert (Server.checkRateLimit t21 userId (Server.checks times userId ur).2
            = (true, (Server.checks times userId ur).2)) as H21.
    { apply checkRateLimit_limited. rewrite Hstored.
      rewrite filter_all; [by rewrite Hlen|].
      intros s Hs. rewrite Forall_forall in Htimes. specialize (Htimes s Hs).
      unfold Server.RATE_LIMIT_WINDOW_MS. lia. }
    assert ((Server.checkRateLimit t22 userId (Server.checks times userId ur).2).1
            = false) as H22.
    { rewrite checkRateLimit_passed; [done|]. rewrite Hstored.
      rewrite filter_none; [simpl; unfold Server.MAX_REQUESTS_PER_WINDOW; lia|].
      intros s Hs. rewrite Forall_forall in Hold. specialize (Hold s Hs).
      unfold Server.RATE_LIMIT_WINDOW_MS. lia. }
    rewrite !checks_app. simpl. rewrite Hpass, H21. simpl. by rewrite H22.
Qed.

Lemma C7_sliding_window_sample :
  (Server.checks (Sample.twentyStamps ++ [20500; 80000]) "u1" ∅).1
    = replicate 20 false ++ [true; false].
Proof.
  refine (proj2 (proj2 (C7_sliding_window "u1" ∅) 1000 Sample.twentyStamps 20500 80000
                   _ _ _ _)).
  - reflexivity.
  - reflexivity.
  - apply (bool_decide_unpack _). vm_compute. exact I.
  - apply (bool_decide_unpack _). vm_compute. exact I.
Defined.

(** * The comments router and the limiter *)

Lemma deleteHandler_total users db now movieId commentId session :
  ∃ o, Comments.deleteHandler users db now movieId commentId session = Some o ∧
       (o.1).(Comments.status) ∈ [200; 401; 403; 500]%nat.
Proof.
  unfold Comments.deleteHandler.
  destruct (negb _); [eexists; split; [done|]; set_solver|].
  destruct (Comments.findUser _ _); [|eexists; split; [done|]; set_solver].
  destruct (negb _); [eexists; split; [done|]; set_solver|].
  destruct (arrayOrEmpty _ _) as [movieComments|];
    [|eexists; split; [done|]; set_solver].
  destruct (cascade_spec movieComments commentId) as (T & -> & _).
  simpl. eexists. split; [done|]. set_solver.
Qed.

(** C4 (amended).  No comment operation that changes the document consults
    the rate limiter: create, toggle upvote and cascade delete never answer
    429, leave the limiter's map as it is, and give the same response and
    document whatever that map holds; so a create by a valid session of a
    known user, for a movie whose id is an own key of the comments of the
    document or no name that objects inherit, is applied (201) even when a
    check for that user would be rejected.  The AI proxy and the downloader
    do consult the limiter: there a valid session whose check is rejected
    gets 429. *)
Theorem C4_comments_bypass_limiter (users : list User.t) (now nowId nowDate : Z)
    (st : Server.state) :
  (∀ req, mutating req = true →
     ∃ r db',
       Server.commentsRouter users now nowId nowDate req st
         = Some (r, Server.mkState (Server.userRequests st) db') ∧
       Comments.status r ≠ 429%nat ∧
       ∀ ur, Server.commentsRouter users now nowId nowDate req
               (Server.mkState ur (Server.commentsDb st))
             = Some (r, Server.mkState ur db')) ∧
  (∀ nowLimit movieId commentData session user,
     (Comments.validateSession now session).1 = true →
     Comments.findUser users (sessionUserId session) = Some user →
     arrayKey (Comments.comments (Server.commentsDb st)) movieId →
     (Server.checkRateLimit nowLimit (sessionUserId session)
        (Server.userRequests st)).1 = true →
     ∃ c db',
       Server.commentsRouter users now nowId nowDate
           (Server.PostComment movieId commentData session) st
         = Some (Comments.mkResponse 201 (Comments.Created c),
                 Server.mkState (Server.userRequests st) db') ∧
       Comments.comments db' !! movieId
         = Some (storedComments (Server.commentsDb st) movieId ++ [c])) ∧
  (∀ nowLimit urlOk session,
     (Auth.validateSession now session).1 = true →
     (Server.checkRateLimit nowLimit (sessionUserId session)
        (Server.userRequests st)).1 = true →
     Server.azureAiGuard true now nowLimit session (Server.userRequests st)
       = (Server.Refuse 429 "Too Many Requests.", Server.userRequests st) ∧
     Server.youtubeGuard now nowLimit urlOk session (Server.userRequests st)
       = (Server.Refuse 429 "Too Many Requests.", Server.userRequests st)).
Proof.
  split; [|split].
  - intros req Hreq. unfold Server.commentsRouter.
    destruct req as [?|movieId commentData session|commentId session
                     |movieId commentId session]; [discriminate|..]; simpl.
    + eexists _, _. split; [reflexivity|]. split; [|reflexivity].
      unfold Comments.postHandler. destruct (negb _); [done|].
      destruct (Comments.findUser _ _); [|done]. by destruct (arrayOrEmpty _ _).
    + eexists _, _. split; [reflexivity|]. split; [|reflexivity].
      unfold Comments.putHandler. destruct (negb _); [done|].
      by destruct (arrayOrEmpty _ _).
    + destruct (deleteHandler_total users (Server.commentsDb st) now movieId
                  commentId session) as (o & -> & Hstatus).
      simpl. eexists _, _. split; [reflexivity|]. split; [|reflexivity].
      intros Heq. rewrite Heq in Hstatus. set_solver.
  - intros nowLimit movieId commentData session user Hvalid Huser Hkey _.
    unfold Server.commentsRouter. simpl.
    rewrite (postHandler_run _ _ _ _ _ _ _ _ user) by done.
    eexists _, _. split; [reflexivity|]. simpl. apply lookup_insert_eq.
  - intros nowLimit urlOk session Hvalid Hlimited.
    unfold Server.azureAiGuard, Server.youtubeGuard. rewrite Hvalid. simpl.
    rewrite Hlimited. split; f_equal.
    all: unfold Server.checkRateLimit in *; by case_bool_decide.
Qed.

Lemma C4_comments_bypass_limiter_sample :
  (Server.checkRateLimit 20500 "u1" Sample.busy).1 = true ∧
  ∃ c db',
    Server.commentsRouter Sample.users 20500 20501 20502
        (Server.PostComment "m" Sample.payload (Sample.session_of "u1" 99000))
        (Server.mkState Sample.busy Sample.emptyDb)
      = Some (Comments.mkResponse 201 (Comments.Created c),
              Server.mkState Sample.busy db') ∧
    Comments.comments db' !! "m" = Some [c].
Proof.
  split; [reflexivity|].
  refine (proj1 (proj2 (C4_comments_bypass_limiter Sample.users 20500 20501 20502
                          (Server.mkState Sample.busy Sample.emptyDb)))
            20500 "m" Sample.payload (Sample.session_of "u1" 99000)
            (User.mk "u1" "Ada" "user") eq_refl eq_refl _ eq_refl).
  right. apply (bool_decide_unpack _). vm_compute. exact I.
Defined.

Lemma C4_create_applied_at_ceiling :
  length (filter (λ t, 20500 - t < 60000) Sample.twentyStamps) = 20%nat ∧
  (Server.checkRateLimit 20500 "u1" Sample.busy).1 = true ∧
  Server.commentsRouter Sample.users 20500 20501 20502
      (Server.PostComment "m" Sample.payload (Sample.session_of "u1" 99000))
      (Server.mkState Sample.busy Sample.emptyDb)
    = Some (Comments.mkResponse 201
              (Comments.Created
                 (Comments.mkComment "comment_20501" None "Ada" "u1"
                    "nice &lt;b&gt;film&lt;/b&gt;" 20502 (Some 5))),
            Server.mkState Sample.busy
              (Comments.mkDb
                 {[ "m" := [Comments.mkComment "comment_20501" None "Ada" "u1"
                              "nice &lt;b&gt;film&lt;/b&gt;" 20502 (Some 5)] ]}
                 ∅)).
Proof. split; [|split]; vm_compute; reflexivity. Qed.

Lemma filter_snoc {A} (P : A → Prop) `{∀ x, Decision (P x)} (l : list A) (x : A) :
  filter P (l ++ [x]) = filter P l ++ if decide (P x) then [x] else [].
Proof. rewrite filter_app. by rewrite (filter_singleton P x []). Qed.

(** * The thread builder *)
Section thread.
Import Comments.
Local Open Scope nat_scope.
Implicit Types (mc l : list Comment) (c : Comment) (s : string) (i j k n : nat).

(** ** The lookup from ids to comments *)

Lemma indexStep_fst n (st : list (list nat) * gmap string nat) (ics : list (nat * Comment)) :
  st.1 = replicate n [] → (foldl indexStep st ics).1 = replicate n [].
Proof.
  revert st. induction ics as [|ic ics IH]; intros st Hst; simpl; [done|].
  apply IH. simpl. rewrite Hst. apply insert_replicate.
Qed.

Lemma indexStep_snd (st : list (list nat) * gmap string nat) (ics : list (nat * Comment)) :
  (foldl indexStep st ics).2 = foldl (λ m ic, <[id ic.2 := ic.1]> m) st.2 ics.
Proof. revert st. induction ics as [|ic ics IH]; intros st; simpl; [done|]. by rewrite IH. Qed.

Lemma indexComments_fst mc : (indexComments mc).1 = replicate (length mc) [].
Proof. unfold indexComments. by apply indexStep_fst. Qed.

Lemma commentMapOf_snoc l c :
  commentMapOf (l ++ [c]) = <[id c := length l]> (commentMapOf l).
Proof.
  unfold commentMapOf, indexComments. rewrite !indexStep_snd. simpl.
  rewrite imap_app, foldl_app. simpl. by rewrite Nat.add_0_r.
Qed.

Lemma lastWithId_snoc l c s j :
  lastWithId (l ++ [c]) s j ↔
  if decide (id c = s) then j = length l else lastWithId l s j.
Proof.
  unfold lastWithId. case_decide as Hc.
  - split.
    + intros [(c' & Hj & Hid) Hlast].
      apply lookup_snoc_Some in Hj as [[Hlt Hj]|[-> _]]; [|done].
      exfalso. apply (Hlast (length l) c); [done| |done].
      by apply list_lookup_middle.
    + intros ->. split.
      * exists c. split; [by apply list_lookup_middle|done].
      * intros j' c' Hlt Hj'. apply lookup_lt_Some in Hj'.
        rewrite length_app in Hj'. simpl in Hj'. lia.
  - split.
    + intros [(c' & Hj & Hid) Hlast].
      apply lookup_snoc_Some in Hj as [[Hlt Hj]|[-> <-]]; [|done].
      split; [by exists c'|].
      intros j' c'' Hlt' Hj'. apply (Hlast j' c''); [done|].
      apply lookup_snoc_Some. left. split; [|done]. by apply lookup_lt_Some in Hj'.
    + intros [(c' & Hj & Hid) Hlast]. split.
      * exists c'. split; [|done]. apply lookup_snoc_Some. left.
        split; [|done]. by apply lookup_lt_Some in Hj.
      * intros j' c'' Hlt' Hj'.
        apply lookup_snoc_Some in Hj' as [[_ Hj']|[_ <-]]; [|done].
        by apply (Hlast j' c'').
Qed.

(** [commentMap.get(s)] is the last comment of the list whose id is [s]. *)
Lemma commentMapOf_lookup mc s j :
  commentMapOf mc !! s = Some j ↔ lastWithId mc s j.
Proof.
  revert j. induction mc as [|c l IH] using rev_ind; intros j.
  - unfold commentMapOf, indexComments, lastWithId. simpl.
    rewrite lookup_empty. split; [done|]. by intros [(c & Hc & _) _].
  - rewrite commentMapOf_snoc, lastWithId_snoc. case_decide as Hc.
    + rewrite <- Hc, lookup_insert_eq. naive_solver.
    + rewrite lookup_insert_ne by done. apply IH.
Qed.

(** [commentMap.has(s)] holds exactly for the ids of the list. *)
Lemma commentMapOf_has mc s :
  is_Some (commentMapOf mc !! s) ↔ ∃ c, c ∈ mc ∧ id c = s.
Proof.
  induction mc as [|c l IH] using rev_ind.
  - unfold commentMapOf, indexComments. simpl. rewrite lookup_empty.
    split; [by intros [? ?]|]. intros (c & Hc & _). by apply elem_of_nil in Hc.
  - rewrite commentMapOf_snoc, lookup_insert_is_Some', IH. split.
    + intros [<-|(c' & Hc' & Hid)].
      * exists c. split; [|done]. apply elem_of_app. right. constructor.
      * exists c'. split; [|done]. apply elem_of_app. by left.
    + intros (c' & [Hc'|Hc']%elem_of_app & Hid).
      * right. by exists c'.
      * apply list_elem_of_singleton in Hc' as ->. by left.
Qed.

Lemma commentMapOf_bound mc s j : commentMapOf mc !! s = Some j → j < length mc.
Proof.
  intros [(c & Hc & _) _]%commentMapOf_lookup. by apply lookup_lt_Some in Hc.
Qed.

(** ** Parents *)

Lemma parentOf_Some (cm : gmap string nat) c j :
  parentOf cm c = Some j ↔ ∃ p, parentId c = Some p ∧ p ≠ "" ∧ cm !! p = Some j.
Proof.
  unfold parentOf. destruct (parentId c) as [p|]; simpl; [|naive_solver].
  destruct (decide (p = "")) as [->|Hne]; [naive_solver|].
  rewrite bool_decide_false by done. simpl. naive_solver.
Qed.

Lemma parentIdx_Some mc i j :
  parentIdx mc i = Some j ↔
  ∃ c p, mc !! i = Some c ∧ parentId c = Some p ∧ p ≠ "" ∧ lastWithId mc p j.
Proof.
  unfold parentIdx. destruct (mc !! i) as [c|]; simpl.
  - rewrite parentOf_Some. setoid_rewrite commentMapOf_lookup. naive_solver.
  - naive_solver.
Qed.

Lemma parentIdx_None mc i c :
  mc !! i = Some c →
  parentIdx mc i = None ↔
  parentId c = None ∨ parentId c = Some "" ∨
  ∃ p, parentId c = Some p ∧ ∀ c', c' ∈ mc → id c' ≠ p.
Proof.
  intros Hi. unfold parentIdx. rewrite Hi. simpl. unfold parentOf.
  destruct (parentId c) as [p|]; simpl; [|naive_solver].
  destruct (decide (p = "")) as [->|Hne]; [naive_solver|].
  rewrite bool_decide_false by done. simpl.
  rewrite eq_None_not_Some, commentMapOf_has. split.
  - intros Hno. right. right. exists p. split; [done|]. intros c' Hc' Hid.
    apply Hno. by exists c'.
  - intros [?|[[= ->]|(p' & [= <-] & Hno)]]; [done..|].
    intros (c' & Hc' & Hid). by apply (Hno c').
Qed.

Lemma parentIdx_bound mc i j : parentIdx mc i = Some j → j < length mc ∧ i < length mc.
Proof.
  intros (c & p & Hi & _ & _ & (c' & Hj & _) & _)%parentIdx_Some.
  split; by eapply lookup_lt_Some.
Qed.

(** ** Placement *)

Lemma fmap_seq_nil {B} n : (λ _ : nat, @nil B) <$> seq 0 n = replicate n [].
Proof.
  apply list_eq. intros i. rewrite list_lookup_fmap.
  destruct (decide (i < n)).
  - rewrite lookup_seq_lt, lookup_replicate_2 by done. done.
  - rewrite lookup_seq_ge by lia. simpl. symmetry.
    apply lookup_replicate_None. lia.
Qed.

Lemma alter_fmap_seq {B} (g : nat → B) (f : B → B) n j :
  alter f j (g <$> seq 0 n)
    = (λ j', if decide (j' = j) then f (g j') else g j') <$> seq 0 n.
Proof.
  apply list_eq. intros i. rewrite list_lookup_fmap.
  destruct (decide (i = j)) as [->|Hne].
  - rewrite list_lookup_alter_eq, list_lookup_fmap.
    destruct (seq 0 n !! j) as [j'|] eqn:Hj; [|done].
    apply lookup_seq in Hj as [-> _]. simpl. by rewrite decide_True.
  - rewrite list_lookup_alter_ne, list_lookup_fmap by done.
    destruct (seq 0 n !! i) as [j'|] eqn:Hi; [|done].
    apply lookup_seq in Hi as [-> _]. simpl. by rewrite decide_False.
Qed.

Lemma placeStep_prefix mc l1 l2 :
  mc = l1 ++ l2 →
  foldl (placeStep (commentMapOf mc)) (replicate (length mc) [], [])
      (imap pair l1)
    = placedUpTo mc (length l1).
Proof.
  revert l2. induction l1 as [|c l1 IH] using rev_ind; intros l2 Hmc.
  - unfold placedUpTo. cbn [imap foldl length seq]. f_equal. symmetry.
    apply (fmap_seq_nil (length mc)).
  - rewrite imap_app, foldl_app. simpl. rewrite Nat.add_0_r.
    rewrite (IH (c :: l2)) by by rewrite Hmc, <- app_assoc.
    assert (mc !! length l1 = Some c) as Hc.
    { rewrite Hmc, <- app_assoc. by apply list_lookup_middle. }
    assert (parentIdx mc (length l1) = parentOf (commentMapOf mc) c) as Hpar.
    { unfold parentIdx. by rewrite Hc. }
    unfold placeStep, placedUpTo. simpl. rewrite length_app. simpl.
    rewrite Nat.add_1_r, seq_S. simpl. rewrite <- Hpar.
    destruct (parentIdx mc (length l1)) as [j|] eqn:Hj.
    + f_equal.
      * rewrite alter_fmap_seq. apply list_fmap_ext. intros _ j' _.
        rewrite filter_snoc, Hj.
        destruct (decide (j' = j)) as [->|Hne].
        -- by rewrite decide_True.
        -- rewrite decide_False by congruence. by rewrite app_nil_r.
      * rewrite filter_snoc, Hj. rewrite decide_False by done.
        by rewrite app_nil_r.
    + f_equal.
      * apply list_fmap_ext. intros _ j' _.
        rewrite filter_snoc, Hj. rewrite decide_False by done.
        by rewrite app_nil_r.
      * rewrite filter_snoc, Hj. by rewrite decide_True.
Qed.

Lemma placeComments_closed mc : placeComments mc = placedUpTo mc (length mc).
Proof.
  unfold placeComments.
  destruct (indexComments mc) as [replies0 cm] eqn:Hidx.
  assert (replies0 = replicate (length mc) []) as ->.
  { by rewrite <- (indexComments_fst mc), Hidx. }
  assert (cm = commentMapOf mc) as ->.
  { unfold commentMapOf. by rewrite Hidx. }
  apply (placeStep_prefix mc mc []). by rewrite app_nil_r.
Qed.

End thread.

(** ** The order of the roots *)
Section sorting.
Import Comments.
Context (key : nat → Z).
Implicit Types (x y : nat) (l : list nat).

Lemma insertRoot_Permutation x l : insertRoot key x l ≡ₚ x :: l.
Proof.
  induction l as [|y l IH]; simpl; [done|].
  destruct (key x <? key y); [|done]. rewrite IH. apply Permutation_swap.
Qed.

Lemma sortRoots_Permutation l : sortRoots key l ≡ₚ l.
Proof.
  induction l as [|x l IH]; simpl; [done|].
  unfold sortRoots in *. simpl. by rewrite insertRoot_Permutation, IH.
Qed.





End sorting.

(** * The thread builder always answers *)
Section render.
Import Comments.
Local Open Scope nat_scope.
Implicit Types (mc : list Comment) (i j k : nat) (l : list nat).

Lemma ancestry_head mc i l : ancestry mc i l → ∃ l', l = i :: l'.
Proof. destruct 1; eauto. Qed.

Lemma ancestry_det mc i l l' : ancestry mc i l → ancestry mc i l' → l = l'.
Proof.
  intros Hl. revert l'. induction Hl as [i Hi Hp|i p l Hp Hl IH]; intros l' Hl'.
  - destruct Hl' as [|? ? ? Hp']; [done|congruence].
  - destruct Hl' as [? ? Hp'|? p' l' Hp' Hl']; [congruence|].
    assert (p' = p) as -> by congruence. f_equal. by apply IH.
Qed.

Lemma ancestry_suffix mc i l x l1 l2 :
  ancestry mc i l → l = l1 ++ x :: l2 → ancestry mc x (x :: l2).
Proof.
  intros Hl. revert l1. induction Hl as [i Hi Hp|i p l Hp Hl IH]; intros l1 Heq.
  - destruct l1 as [|y l1]; simplify_eq/=.
    + by constructor.
    + by destruct l1.
  - destruct l1 as [|y l1]; simplify_eq/=.
    + by econstructor.
    + by eapply IH.
Qed.

Lemma ancestry_NoDup mc i l : ancestry mc i l → NoDup l.
Proof.
  induction 1 as [i Hi Hp|i p l Hp Hl IH].
  - apply NoDup_singleton.
  - constructor; [|done]. intros Hin.
    apply list_elem_of_split in Hin as (l1 & l2 & Heq).
    pose proof (ancestry_suffix _ _ _ _ _ _ Hl Heq) as Hi.
    pose proof (ancestry_det _ _ _ _ Hi (ancestry_reply _ _ _ _ Hp Hl)) as Hll.
    apply (f_equal length) in Hll. rewrite Heq in Hll. simpl in Hll.
    rewrite length_app in Hll. simpl in Hll. lia.
Qed.

Lemma ancestry_bound mc i l : ancestry mc i l → ∀ x, x ∈ l → x < length mc.
Proof.
  induction 1 as [i Hi Hp|i p l Hp Hl IH]; intros x Hx.
  - by apply list_elem_of_singleton in Hx as ->.
  - apply elem_of_cons in Hx as [->|Hx]; [|by apply IH].
    by apply parentIdx_bound in Hp as [_ ?].
Qed.

(** A path to a root visits no comment twice, so it is no longer than the
    list. *)
Lemma ancestry_length mc i l : ancestry mc i l → length l ≤ length mc.
Proof.
  intros Hl. transitivity (length (seq 0 (length mc))); [|by rewrite length_seq].
  apply submseteq_length, NoDup_submseteq; [by eapply ancestry_NoDup|].
  intros x Hx. apply elem_of_seq. pose proof (ancestry_bound _ _ _ Hl x Hx). lia.
Qed.

Lemma placed_replies mc i :
  i < length mc →
  (placedUpTo mc (length mc)).1 !! i
    = Some (filter (λ k, parentIdx mc k = Some i) (seq 0 (length mc))).
Proof.
  intros Hi. unfold placedUpTo. simpl.
  by rewrite list_lookup_fmap, lookup_seq_lt.
Qed.

Lemma render_ancestry mc (replies : list (list nat)) fuel i l :
  (∀ i, i < length mc →
        replies !! i = Some (filter (λ k, parentIdx mc k = Some i) (seq 0 (length mc)))) →
  ancestry mc i l →
  length mc < length l + fuel →
  is_Some (render fuel mc replies i).
Proof.
  intros Hrep. revert i l. induction fuel as [|fuel IH]; intros i l Hl Hfuel.
  - pose proof (ancestry_length _ _ _ Hl). lia.
  - assert (i < length mc) as Hi.
    { destruct (ancestry_head _ _ _ Hl) as [l' ->].
      apply (ancestry_bound _ _ _ Hl). constructor. }
    simpl. destruct (lookup_lt_is_Some_2 mc i Hi) as [c ->]. simpl.
    rewrite Hrep by done. simpl.
    destruct (mapM_is_Some_2 (render fuel mc replies)
                (filter (λ k, parentIdx mc k = Some i) (seq 0 (length mc))))
      as [ts ->]; [|by eexists].
    apply Forall_forall. intros k [Hk _]%list_elem_of_filter.
    apply (IH k (k :: l)); [by econstructor|]. simpl. lia.
Qed.

Lemma buildThread_Some mc : ∃ ts, buildThread mc = Some ts.
Proof.
  unfold buildThread. rewrite placeComments_closed.
  destruct (placedUpTo mc (length mc)) as [replies roots] eqn:Hplaced.
  apply mapM_is_Some_2, Forall_forall. intros r Hr.
  rewrite sortRoots_Permutation in Hr.
  assert (roots = (placedUpTo mc (length mc)).2) as -> by by rewrite Hplaced.
  assert (replies = (placedUpTo mc (length mc)).1) as -> by by rewrite Hplaced.
  apply list_elem_of_filter in Hr as [Hpar Hr%elem_of_seq].
  apply (render_ancestry mc _ _ r [r]); [apply placed_replies| |simpl; lia].
  constructor; [lia|done].
Qed.



End render.





(** * The shape of the thread *)
Section shape.
Import Comments.
Local Open Scope nat_scope.
Implicit Types (mc : list Comment) (i j k : nat) (l : list nat).

Lemma render_threaded mc (replies : list (list nat)) fuel i t :
  (∀ i, i < length mc →
        replies !! i = Some (filter (λ k, parentIdx mc k = Some i) (seq 0 (length mc)))) →
  render fuel mc replies i = Some t →
  mc !! i = Some (rootOf t) ∧ threaded t.
Proof.
  intros Hrep. revert i t. induction fuel as [|fuel IH]; intros i t; [done|].
  simpl. destruct (mc !! i) as [c|] eqn:Hc; [|done]. simpl.
  assert (i < length mc) as Hi by by eapply lookup_lt_Some.
  rewrite Hrep by done. simpl.
  destruct (mapM _ _) as [ts|] eqn:Hts; [|done]. simpl. intros [= <-].
  split; [done|]. constructor.
  apply mapM_Some in Hts.
  assert (∀ k, k ∈ filter (λ k, parentIdx mc k = Some i) (seq 0 (length mc)) →
               parentIdx mc k = Some i) as Hpar.
  { by intros k [? _]%list_elem_of_filter. }
  induction Hts as [|k t' ks ts' Hk Hrest IHrest]; [constructor|].
  destruct (IH _ _ Hk) as [Hroot Hthr].
  constructor; [|apply IHrest; intros k' ?; apply Hpar; by constructor].
  split; [|done].
  destruct (proj1 (parentIdx_Some mc k i) (Hpar k ltac:(constructor)))
    as (c' & p & Hk' & Hp & _ & (c'' & Hi' & Hid) & _).
  rewrite Hroot in Hk'. injection Hk' as <-. rewrite Hp. f_equal.
  rewrite Hc in Hi'. by injection Hi' as <-.
Qed.

End shape.

Lemma buildThread_shape (movieComments : list Comments.Comment) :
  ∃ ts,
    Comments.buildThread movieComments = Some ts ∧
    rootOf <$> ts
      = commentsAt movieComments
          (Comments.sortRoots (Comments.dateAt movieComments)
             (filter (λ i, parentIdx movieComments i = None)
                (seq 0 (length movieComments)))) ∧
    Forall threaded ts.
Proof.
  destruct (buildThread_Some movieComments) as [ts Hts]. exists ts.
  split; [done|]. unfold Comments.buildThread in Hts.
  rewrite placeComments_closed in Hts. unfold placedUpTo in Hts.
  apply mapM_Some in Hts. unfold commentsAt.
  induction Hts as [|r t rs ts' Hr Hrest [IH1 IH2]]; [by split|].
  apply render_threaded in Hr as [Hroot Hthr].
  - split; [|by constructor]. simpl. rewrite Hroot. simpl. by f_equal.
  - intros i Hi. by rewrite list_lookup_fmap, lookup_seq_lt.
Qed.

(** X1.  The thread builder answers for every list of comments, also one with
    parent cycles or repeated ids: rendering the sorted roots never runs
    into a cycle.  The trees it returns are headed by the comments with no
    parent found, newest first, and every reply in them names the id of the
    comment it hangs under. *)
Theorem buildThread_total (movieComments : list Comments.Comment) :
  ∃ ts,
    Comments.buildThread movieComments = Some ts ∧
    rootOf <$> ts
      = commentsAt movieComments
          (Comments.sortRoots (Comments.dateAt movieComments)
             (filter (λ i, parentIdx movieComments i = None)
                (seq 0 (length movieComments)))) ∧
    Forall threaded ts.
Proof. apply buildThread_shape. Qed.

(** X2.  Reading a thread never writes, and always answers: 400 with the text
    [Movie ID is required] when the query carries no movie id or an empty
    one; 200 with the thread of the movie when the id is an own key of the
    comments of the document or no name that objects inherit; and 500, the
    uncaught [movieComments.forEach is not a function], for the ids that
    are left. *)
Theorem getHandler_answers (db : Comments.Db) (movieId : option string) :
  ∃ r,
    Comments.getHandler db movieId = Some (r, None) ∧
    if decide (movieId = None ∨ movieId = Some "")
    then r = Comments.mkResponse 400 (Comments.Error "Movie ID is required")
    else ∃ m,
        movieId = Some m ∧
        if decide (arrayKey (Comments.comments db) m)
        then ∃ ts,
            Comments.buildThread (storedComments db m) = Some ts ∧
            r = Comments.mkResponse 200
                  (Comments.Thread ts
                     (Comments.upvotesForMovie db
                        (Comments.commentMapOf (storedComments db m))))
        else r = Comments.mkResponse 500
                   (Comments.Uncaught "movieComments.forEach is not a function").
Proof.
  destruct (decide (movieId = None ∨ movieId = Some "")) as [Hno|Hm].
  - exists (Comments.mkResponse 400 (Comments.Error "Movie ID is required")).
    split; [|done]. by destruct Hno as [->| ->].
  - destruct movieId as [m|]; [|exfalso; apply Hm; by left].
    assert (m ≠ "") as Hne by (intros ->; apply Hm; by right).
    unfold Comments.getHandler, truthy. rewrite bool_decide_false by done.
    simpl. destruct (decide (arrayKey (Comments.comments db) m)) as [Hkey|Hkey].
    + rewrite (arrayOrEmpty_arrayKey _ _ Hkey). fold (storedComments db m).
      destruct (buildThread_Some (storedComments db m)) as [ts Hts].
      rewrite Hts. simpl. eexists. split; [done|].
      exists m. split; [done|]. rewrite decide_True by done. by exists ts.
    + rewrite (proj2 (arrayOrEmpty_None _ _) Hkey).
      eexists. split; [done|]. exists m. split; [done|].
      by rewrite decide_False by done.
Qed.

(** X3.  The ledger sent with a thread holds exactly the entries of the document
    that are keyed by the id of a comment of the movie; entries of other
    movies and stale ones are left out. *)
Theorem upvotesForMovie_lookup (db : Comments.Db)
    (movieComments : list Comments.Comment) (k : string) (voters : list string) :
  Comments.upvotesForMovie db (Comments.commentMapOf movieComments) !! k = Some voters
  ↔ Comments.upvotes db !! k = Some voters ∧
    ∃ c, c ∈ movieComments ∧ Comments.id c = k.
Proof.
  unfold Comments.upvotesForMovie. rewrite map_lookup_filter_Some. simpl.
  by rewrite commentMapOf_has.
Qed.

(** * Sanitizing *)

Lemma string_app_cons a (s1 s2 : string) : String a s1 +:+ s2 = String a (s1 +:+ s2).
Proof. reflexivity. Qed.

Lemma string_app_nil (s : string) : "" +:+ s = s.
Proof. reflexivity. Qed.

Lemma list_ascii_of_string_app (s1 s2 : string) :
  String.list_ascii_of_string (s1 +:+ s2)
    = String.list_ascii_of_string s1 ++ String.list_ascii_of_string s2.
Proof.
  induction s1 as [|a s1 IH]; [done|].
  rewrite string_app_cons. simpl. by rewrite IH.
Qed.

Lemma string_app_assoc (s1 s2 s3 : string) : (s1 +:+ s2) +:+ s3 = s1 +:+ s2 +:+ s3.
Proof.
  induction s1 as [|a s1 IH]; [done|]. rewrite !string_app_cons. by rewrite IH.
Qed.

Lemma replaceAll_app c r (s1 s2 : string) :
  replaceAll c r (s1 +:+ s2) = replaceAll c r s1 +:+ replaceAll c r s2.
Proof.
  induction s1 as [|a s1 IH]; [done|]. rewrite string_app_cons. simpl.
  case_bool_decide; rewrite IH; [|done]. by rewrite string_app_assoc.
Qed.

(** X5.  [sanitize] is written as two passes, [<] first and [>] second; the one
    pass of the model gives the same text, since the text put in for [<]
    holds no [>]. *)
Theorem sanitize_two_passes (str : string) :
  Comments.sanitize str
    = replaceAll ">"%char "&gt;" (replaceAll "<"%char "&lt;" str).
Proof.
  induction str as [|a str IH]; simpl; [done|].
  case_bool_decide as Hlt.
  - rewrite replaceAll_app, <- IH. done.
  - simpl. case_bool_decide; by rewrite IH.
Qed.

Lemma sanitize_clean (str : string) :
  ("<"%char ∉ String.list_ascii_of_string (Comments.sanitize str)) ∧
  (">"%char ∉ String.list_ascii_of_string (Comments.sanitize str)) ∧
  (("<"%char ∉ String.list_ascii_of_string str) →
   (">"%char ∉ String.list_ascii_of_string str) →
   Comments.sanitize str = str).
Proof.
  induction str as [|a str (IH1 & IH2 & IH3)]; simpl.
  - split_and!; [apply not_elem_of_nil..|done].
  - repeat case_bool_decide; subst; rewrite ?list_ascii_of_string_app; simpl.
    + split_and!.
      * rewrite !not_elem_of_cons. split_and!; done.
      * rewrite !not_elem_of_cons. split_and!; done.
      * intros Hno. exfalso. apply Hno. constructor.
    + split_and!.
      * rewrite !not_elem_of_cons. split_and!; done.
      * rewrite !not_elem_of_cons. split_and!; done.
      * intros _ Hno. exfalso. apply Hno. constructor.
    + split_and!.
      * rewrite not_elem_of_cons. split; [congruence|done].
      * rewrite not_elem_of_cons. split; [congruence|done].
      * rewrite !not_elem_of_cons. intros [_ ?] [_ ?]. f_equal. by apply IH3.
Qed.

(** X6.  A sanitized text holds neither [<] nor [>], and a text without them is
    left as it is. *)
Theorem sanitize_no_angle_brackets (str : string) :
  ("<"%char ∉ String.list_ascii_of_string (Comments.sanitize str)) ∧
  (">"%char ∉ String.list_ascii_of_string (Comments.sanitize str)) ∧
  (("<"%char ∉ String.list_ascii_of_string str) →
   (">"%char ∉ String.list_ascii_of_string str) →
   Comments.sanitize str = str).
Proof. apply sanitize_clean. Qed.

Lemma sanitize_script_sample :
  Comments.sanitize "<script>alert(1)</script>"
    = "&lt;script&gt;alert(1)&lt;/script&gt;" ∧
  ("<"%char ∉ String.list_ascii_of_string
                (Comments.sanitize "<script>alert(1)</script>")).
Proof.
  split; [reflexivity|].
  exact (proj1 (sanitize_no_angle_brackets "<script>alert(1)</script>")).
Defined.

(** * Creating a comment *)

(** X7.  A creation request is turned away without a write: with 401 when the
    session fails validation, and with 404 when it is valid but its user id
    is that of no stored user. *)
Theorem postHandler_rejections (users : list User.t) (db : Comments.Db)
    (now nowId nowDate : Z) (movieId : string) (commentData : Comments.CommentData)
    (session : value) :
  ((Comments.validateSession now session).1 = false →
   Comments.postHandler users db now nowId nowDate movieId commentData session
     = (Comments.mkResponse 401 (Comments.Error "Unauthorized"), None)) ∧
  ((Comments.validateSession now session).1 = true →
   Comments.findUser users (sessionUserId session) = None →
   Comments.postHandler users db now nowId nowDate movieId commentData session
     = (Comments.mkResponse 404 (Comments.Error "User not found"), None)) ∧
  ((Comments.postHandler users db now nowId nowDate movieId commentData session).2
     = None →
   Comments.persisted db
     (Comments.postHandler users db now nowId nowDate movieId commentData session)
     = db).
Proof.
  unfold Comments.postHandler. split_and!.
  - by intros ->.
  - by intros -> ->.
  - unfold Comments.persisted. by intros ->.
Qed.

Lemma postHandler_rejections_sample :
  Comments.postHandler Sample.users Sample.familyDb 5000 5001 5002 "m"
      Sample.payload (Sample.session_of "u1" 4000)
    = (Comments.mkResponse 401 (Comments.Error "Unauthorized"), None) ∧
  Comments.postHandler Sample.users Sample.familyDb 5000 5001 5002 "m"
      Sample.payload (Sample.session_of "ghost" 9000)
    = (Comments.mkResponse 404 (Comments.Error "User not found"), None).
Proof.
  split.
  - exact (proj1 (postHandler_rejections Sample.users Sample.familyDb 5000 5001 5002
                    "m" Sample.payload (Sample.session_of "u1" 4000)) eq_refl).
  - exact (proj1 (proj2 (postHandler_rejections Sample.users Sample.familyDb 5000
                           5001 5002 "m" Sample.payload
                           (Sample.session_of "ghost" 9000))) eq_refl eq_refl).
Defined.

Lemma postHandler_created (users : list User.t) (db : Comments.Db)
    (now nowId nowDate : Z) (movieId : string) (commentData : Comments.CommentData)
    (session : value) (user : User.t) :
  (Comments.validateSession now session).1 = true →
  Comments.findUser users (sessionUserId session) = Some user →
  arrayKey (Comments.comments db) movieId →
  ∃ c db',
    Comments.postHandler users db now nowId nowDate movieId commentData session
      = (Comments.mkResponse 201 (Comments.Created c), Some db') ∧
    Comments.reviewer c = User.name user ∧
    Comments.userId c = sessionUserId session ∧
    Comments.date c = nowDate ∧
    Comments.comment c = Comments.sanitize (Comments.cd_comment commentData) ∧
    ("<"%char ∉ String.list_ascii_of_string (Comments.comment c)) ∧
    (">"%char ∉ String.list_ascii_of_string (Comments.comment c)) ∧
    storedComments db' movieId = storedComments db movieId ++ [c] ∧
    (∀ m, m ≠ movieId → Comments.comments db' !! m = Comments.comments db !! m) ∧
    Comments.upvotes db' = Comments.upvotes db.
Proof.
  intros Hvalid Huser Hkey.
  rewrite (postHandler_run _ _ _ _ _ _ _ _ user) by done.
  eexists _, _. split; [reflexivity|]. simpl.
  destruct (sanitize_clean (Comments.cd_comment commentData))
    as (Hlt & Hgt & _).
  split_and!; try done.
  - unfold Comments.findUser in Huser. apply find_some in Huser as [_ Hid].
    by apply bool_decide_eq_true in Hid.
  - unfold storedComments at 1. simpl. by rewrite lookup_insert_eq.
  - intros m Hm. by rewrite lookup_insert_ne.
Qed.

(** X8.  A creation by a valid session of a stored user, for a movie whose id is
    an own key of the comments of the document or no name that objects
    inherit, succeeds (201) and stores a comment that carries the name and
    id of the stored user (not what the session says beyond the id), the
    clock reading as its date, and the sanitized text, which holds no angle
    bracket; it is appended to the list of its movie, while the lists of the
    other movies and the whole ledger stay as they were. *)
Theorem postHandler_appends (users : list User.t) (db : Comments.Db)
    (now nowId nowDate : Z) (movieId : string) (commentData : Comments.CommentData)
    (session : value) (user : User.t) :
  (Comments.validateSession now session).1 = true →
  Comments.findUser users (sessionUserId session) = Some user →
  arrayKey (Comments.comments db) movieId →
  ∃ c db',
    Comments.postHandler users db now nowId nowDate movieId commentData session
      = (Comments.mkResponse 201 (Comments.Created c), Some db') ∧
    Comments.reviewer c = User.name user ∧
    Comments.userId c = sessionUserId session ∧
    Comments.date c = nowDate ∧
    Comments.comment c = Comments.sanitize (Comments.cd_comment commentData) ∧
    ("<"%char ∉ String.list_ascii_of_string (Comments.comment c)) ∧
    (">"%char ∉ String.list_ascii_of_string (Comments.comment c)) ∧
    storedComments db' movieId = storedComments db movieId ++ [c] ∧
    (∀ m, m ≠ movieId → Comments.comments db' !! m = Comments.comments db !! m) ∧
    Comments.upvotes db' = Comments.upvotes db.
Proof. apply postHandler_created. Qed.

Lemma postHandler_appends_sample :
  ∃ c db',
    Comments.postHandler Sample.users Sample.emptyDb 5000 5001 5002 "m"
        Sample.payload (Sample.session_of "u1" 9000)
      = (Comments.mkResponse 201 (Comments.Created c), Some db') ∧
    Comments.comment c = "nice &lt;b&gt;film&lt;/b&gt;" ∧
    storedComments db' "m" = [c].
Proof.
  destruct (postHandler_appends Sample.users Sample.emptyDb 5000 5001 5002 "m"
              Sample.payload (Sample.session_of "u1" 9000)
              (User.mk "u1" "Ada" "user") eq_refl eq_refl)
    as (c & db' & Hrun & _ & _ & _ & Hbody & _ & _ & Hlist & _).
  { right. apply (bool_decide_unpack _). vm_compute. exact I. }
  exists c, db'. split; [exact Hrun|]. split; [exact Hbody|exact Hlist].
Defined.

(** * Toggling *)

(** X10.  A toggle with a session that fails validation answers 401 and writes
    nothing. *)
Theorem putHandler_unauthorized (db : Comments.Db) (now : Z) (commentId : string)
    (session : value) :
  (Comments.validateSession now session).1 = false →
  Comments.putHandler db now commentId session
    = (Comments.mkResponse 401 (Comments.Error "Unauthorized"), None) ∧
  Comments.persisted db (Comments.putHandler db now commentId session) = db.
Proof. intros Hinvalid. unfold Comments.putHandler. by rewrite Hinvalid. Qed.

Lemma putHandler_unauthorized_sample :
  Comments.putHandler Sample.familyDb 5000 "A" VNull
    = (Comments.mkResponse 401 (Comments.Error "Unauthorized"), None).
Proof. exact (proj1 (putHandler_unauthorized Sample.familyDb 5000 "A" VNull eq_refl)). Defined.

(** X11.  Two toggles by a user who had not voted give back the very list of
    voters, order included; for a user who had voted, in a list without
    duplicates, they give back the same voters with the user moved to the
    end. *)
Theorem toggle_round_trip (upvoteUserIds : list string) (uid : string) :
  (uid ∉ upvoteUserIds →
   Comments.toggle (Comments.toggle upvoteUserIds uid) uid = upvoteUserIds) ∧
  (uid ∈ upvoteUserIds → NoDup upvoteUserIds →
   Comments.toggle (Comments.toggle upvoteUserIds uid) uid
     = filter (λ i, i ≠ uid) upvoteUserIds ++ [uid] ∧
   Comments.toggle (Comments.toggle upvoteUserIds uid) uid ≡ₚ upvoteUserIds).
Proof.
  split.
  - intros Hout. rewrite (toggle_absent upvoteUserIds uid) by done.
    unfold Comments.toggle. rewrite bool_decide_true by set_solver.
    rewrite filter_app, filter_all by (intros x Hx ->; done).
    rewrite filter_cons_False by (intros Hn; by apply Hn). by rewrite app_nil_r.
  - intros Hin Hnd.
    assert (Comments.toggle upvoteUserIds uid = filter (λ i, i ≠ uid) upvoteUserIds)
      as Hfirst by (unfold Comments.toggle; by rewrite bool_decide_true).
    assert (Comments.toggle (Comments.toggle upvoteUserIds uid) uid
            = filter (λ i, i ≠ uid) upvoteUserIds ++ [uid]) as Hsecond.
    { rewrite Hfirst. apply toggle_absent. rewrite list_elem_of_filter.
      by intros [Hne _]. }
    split; [done|]. rewrite Hsecond. apply NoDup_Permutation; [|done|].
    + apply NoDup_app. split_and!; [by apply NoDup_filter| |apply NoDup_singleton].
      intros x [Hne _]%list_elem_of_filter ->%list_elem_of_singleton. done.
    + intros x. rewrite elem_of_app, list_elem_of_filter, list_elem_of_singleton.
      destruct (decide (x = uid)) as [->|]; naive_solver.
Qed.

Lemma toggle_round_trip_sample :
  Comments.toggle (Comments.toggle ["a"; "b"] "c") "c" = ["a"; "b"] ∧
  Comments.toggle (Comments.toggle ["a"; "b"] "a") "a" = ["b"; "a"].
Proof.
  split.
  - apply (proj1 (toggle_round_trip ["a"; "b"] "c")).
    apply (bool_decide_unpack _). vm_compute. exact I.
  - refine (proj1 (proj2 (toggle_round_trip ["a"; "b"] "a") _ _)).
    + constructor.
    + apply (bool_decide_unpack _). vm_compute. exact I.
Defined.

(** * Deleting twice *)

Lemma descendant_mono (l1 l2 : list Comments.Comment) commentId x :
  l1 ⊆ l2 → descendant l1 commentId x → descendant l2 commentId x.
Proof.
  intros Hsub. induction 1 as [|c p Hc Hp Hne _ IH]; [constructor|].
  eapply descendant_reply; eauto.
Qed.

Lemma dropUpvotes_twice (T T' : gset string) (ups : gmap string (list string)) :
  T' ⊆ T → Comments.dropUpvotes T' (Comments.dropUpvotes T ups) = Comments.dropUpvotes T ups.
Proof.
  intros Hsub. apply map_eq. intros k. rewrite !lookup_dropUpvotes.
  destruct (decide (k ∈ T')) as [Hk|]; [|done].
  by rewrite decide_True by by apply Hsub.
Qed.

Lemma deleteHandler_admin users db now movieId commentId session admin T :
  (Comments.validateSession now session).1 = true →
  Comments.findUser users (sessionUserId session) = Some admin →
  User.role admin = "admin" →
  arrayKey (Comments.comments db) movieId →
  Comments.cascade (storedComments db movieId) commentId = Some T →
  Comments.deleteHandler users db now movieId commentId session
    = Some (Comments.mkResponse 200 Comments.Success,
            Some (Comments.mkDb
                    (<[movieId := filter (λ c, Comments.id c ∉ T)
                                    (storedComments db movieId)]>
                       (Comments.comments db))
                    (Comments.dropUpvotes T (Comments.upvotes db)))).
Proof.
  intros Hvalid Huser Hrole Hkey%arrayOrEmpty_arrayKey HT.
  unfold Comments.deleteHandler.
  rewrite Hvalid, Huser, Hrole. simpl. rewrite Hkey.
  fold (storedComments db movieId). by rewrite HT.
Qed.

(** X13.  For an administrator, and a movie whose id is an own key of the comments
    of the document or no name that objects inherit, the cascade delete is
    idempotent: the document it writes is left exactly as it is by the same
    deletion done again. *)
Theorem deleteHandler_idempotent (users : list User.t) (db : Comments.Db)
    (now now' : Z) (movieId commentId : string) (session : value) (admin : User.t) :
  (Comments.validateSession now session).1 = true →
  (Comments.validateSession now' session).1 = true →
  Comments.findUser users (sessionUserId session) = Some admin →
  User.role admin = "admin" →
  arrayKey (Comments.comments db) movieId →
  ∃ db',
    Comments.deleteHandler users db now movieId commentId session
      = Some (Comments.mkResponse 200 Comments.Success, Some db') ∧
    Comments.deleteHandler users db' now' movieId commentId session
      = Some (Comments.mkResponse 200 Comments.Success, Some db').
Proof.
  intros Hvalid Hvalid' Huser Hrole Hkey.
  destruct (cascade_spec (storedComments db movieId) commentId)
    as (T & Hc & HT).
  set (kept := filter (λ c, Comments.id c ∉ T) (storedComments db movieId)).
  set (db' := Comments.mkDb (<[movieId := kept]> (Comments.comments db))
                (Comments.dropUpvotes T (Comments.upvotes db))).
  assert (storedComments db' movieId = kept) as Hkept.
  { unfold storedComments, db'. simpl. by rewrite lookup_insert_eq. }
  assert (arrayKey (Comments.comments db') movieId) as Hkey'.
  { left. unfold db'. simpl. rewrite lookup_insert_eq. by eexists. }
  destruct (cascade_spec kept commentId) as (T' & Hc' & HT').
  assert (T' ⊆ T) as Hsub.
  { intros x Hx. apply HT. apply (descendant_mono kept); [|by apply HT'].
    intros c [_ ?]%list_elem_of_filter. done. }
  exists db'. split; [by apply (deleteHandler_admin _ _ _ _ _ _ admin)|].
  rewrite (deleteHandler_admin users db' now' movieId commentId session admin T')
    by (try done; by rewrite Hkept).
  rewrite Hkept. unfold db'. simpl. do 3 f_equal. f_equal.
  - rewrite insert_insert_eq. f_equal. apply filter_all.
    intros c [Hc0 _]%list_elem_of_filter Hin. apply Hc0. by apply Hsub.
  - by apply dropUpvotes_twice.
Qed.

Lemma deleteHandler_idempotent_sample :
  ∃ db',
    Comments.deleteHandler Sample.users Sample.familyDb 5000 "m" "B"
        (Sample.session_of "u9" 9000)
      = Some (Comments.mkResponse 200 Comments.Success, Some db') ∧
    Comments.deleteHandler Sample.users db' 6000 "m" "B" (Sample.session_of "u9" 9000)
      = Some (Comments.mkResponse 200 Comments.Success, Some db').
Proof.
  exact (deleteHandler_idempotent Sample.users Sample.familyDb 5000 6000 "m" "B"
           (Sample.session_of "u9" 9000) (User.mk "u9" "Root" "admin")
           eq_refl eq_refl eq_refl eq_refl
           (or_introl (ex_intro _ Sample.family eq_refl))).
Defined.

(** X12.  The cascade delete answers for every request and every document: the
    loop that closes the working set ends within the rounds the list allows,
    and the status is 200, 401, 403 or, when the movie id is a name that
    objects inherit and no own key of the comments, 500.  Only the answer
    200 comes with a write. *)
Theorem deleteHandler_always_answers (users : list User.t) (db : Comments.Db)
    (now : Z) (movieId commentId : string) (session : value) :
  ∃ r w,
    Comments.deleteHandler users db now movieId commentId session = Some (r, w) ∧
    Comments.status r ∈ [200; 401; 403; 500]%nat ∧
    (Comments.status r ≠ 200%nat → w = None) ∧
    (Comments.status r = 500%nat → ¬ arrayKey (Comments.comments db) movieId).
Proof.
  unfold Comments.deleteHandler.
  destruct (negb _); [eexists _, _; split; [done|]; split; [set_solver|done]|].
  destruct (Comments.findUser _ _);
    [|eexists _, _; split; [done|]; split; [set_solver|done]].
  destruct (negb _); [eexists _, _; split; [done|]; split; [set_solver|done]|].
  destruct (arrayOrEmpty _ _) as [movieComments|] eqn:Hread.
  - destruct (cascade_spec movieComments commentId) as (T & -> & _).
    simpl. eexists _, _. split; [done|]. split; [set_solver|done].
  - eexists _, _. split; [done|]. split; [set_solver|]. split; [done|].
    intros _. by apply arrayOrEmpty_None.
Qed.

(** * The limiter's map *)

Lemma checkRateLimit_effect (now : Z) (userId : string) (ur : Server.limiter) :
  (∀ u, u ≠ userId → (Server.checkRateLimit now userId ur).2 !! u = ur !! u) ∧
  ((Server.checkRateLimit now userId ur).1 = true →
   (Server.checkRateLimit now userId ur).2 = ur) ∧
  ((Server.checkRateLimit now userId ur).1 = false →
   ∃ l, (Server.checkRateLimit now userId ur).2 !! userId = Some l ∧
        (length l ≤ 20)%nat ∧
        now ∈ l ∧
        ∀ t, t ∈ l → t = now ∨ (t ∈ default [] (ur !! userId) ∧ now - t < 60000)).
Proof.
  unfold Server.checkRateLimit. case_bool_decide as Hfull; simpl.
  - split_and!; [done..|]. intros [=].
  - split_and!.
    + intros u Hu. by rewrite lookup_insert_ne.
    + intros [=].
    + intros _. eexists. split; [apply lookup_insert_eq|].
      unfold Server.MAX_REQUESTS_PER_WINDOW in Hfull.
      split; [rewrite length_app; simpl; lia|].
      split; [set_solver|].
      intros t [Ht| ->%list_elem_of_singleton]%elem_of_app; [|by left].
      apply list_elem_of_filter in Ht as [? ?]. right. done.
Qed.

(** X14.  A check touches the record of the checked user only; when it passes,
    the record it leaves holds at most 20 stamps, each of them the clock
    reading of this check or a stamp that was there and is less than
    60 000 ms old. *)
Theorem checkRateLimit_record (now : Z) (userId : string) (ur : Server.limiter) :
  (∀ u, u ≠ userId → (Server.checkRateLimit now userId ur).2 !! u = ur !! u) ∧
  ((Server.checkRateLimit now userId ur).1 = true →
   (Server.checkRateLimit now userId ur).2 = ur) ∧
  ((Server.checkRateLimit now userId ur).1 = false →
   ∃ l, (Server.checkRateLimit now userId ur).2 !! userId = Some l ∧
        (length l ≤ 20)%nat ∧
        now ∈ l ∧
        ∀ t, t ∈ l → t = now ∨ (t ∈ default [] (ur !! userId) ∧ now - t < 60000)).
Proof. apply checkRateLimit_effect. Qed.

Lemma checkAll_invariant (requests rest : list (Z * string)) (ur : Server.limiter) :
  (∀ r, r ∈ rest → r ∈ requests) →
  (∀ u l, ur !! u = Some l → (length l ≤ 20)%nat ∧ ∀ t, t ∈ l → (t, u) ∈ requests) →
  ∀ u l, checkAll rest ur !! u = Some l →
         (length l ≤ 20)%nat ∧ ∀ t, t ∈ l → (t, u) ∈ requests.
Proof.
  revert ur. induction rest as [|[now userId] rest IH]; intros ur Hrest Hur; [done|].
  unfold checkAll. simpl. apply IH.
  - intros r Hr. apply Hrest. by constructor.
  - intros u l Hl.
    destruct (checkRateLimit_effect now userId ur) as (Hframe & Hlim & Hpass).
    destruct (Server.checkRateLimit now userId ur) as [[] ur'] eqn:Hcheck; simpl in *.
    + rewrite (Hlim eq_refl) in Hl. by apply Hur.
    + destruct (decide (u = userId)) as [->|Hne].
      * destruct (Hpass eq_refl) as (l' & Hl' & Hlen & _ & Hfrom).
        assert (l' = l) as -> by congruence. split; [done|].
        intros t [->|[Ht _]]%Hfrom; [apply Hrest; constructor|].
        destruct (ur !! userId) as [l0|] eqn:Hl0; [|by apply elem_of_nil in Ht].
        by apply (Hur userId l0).
      * rewrite Hframe in Hl by done. by apply Hur.
Qed.

(** X15.  Whatever checks are made, by whichever users and at whatever clock
    readings, starting with the empty map of a fresh process, no record
    ever holds more than 20 stamps, and every stamp in the record of a user
    is the clock reading of one of that user's checks. *)
Theorem checkAll_bounded (requests : list (Z * string)) (u : string) (l : list Z) :
  checkAll requests ∅ !! u = Some l →
  (length l ≤ 20)%nat ∧ ∀ t, t ∈ l → (t, u) ∈ requests.
Proof.
  apply (checkAll_invariant requests requests ∅); [done|].
  intros u' l'. by rewrite lookup_empty.
Qed.

Lemma checkAll_bounded_sample :
  checkAll ((λ t, (t, "u1")) <$> (Sample.twentyStamps ++ [20500])) ∅ !! "u1"
    = Some Sample.twentyStamps ∧
  (length Sample.twentyStamps ≤ 20)%nat.
Proof.
  assert (checkAll ((λ t, (t, "u1")) <$> (Sample.twentyStamps ++ [20500])) ∅ !! "u1"
          = Some Sample.twentyStamps) as Hrun by (vm_compute; reflexivity).
  split; [exact Hrun|]. exact (proj1 (checkAll_bounded _ _ _ Hrun)).
Defined.

(** * The guarded routes *)

(** X16.  The AI proxy lets a request through exactly when the client is
    configured, the session is valid and the limiter's check passes; it
    answers 500 before looking at the session when the client is missing,
    401 before consulting the limiter when the session is invalid, and
    leaves the limiter's map untouched whenever it refuses. *)
Theorem azureAiGuard_cases (configured : bool) (now nowLimit : Z) (session : value)
    (ur : Server.limiter) :
  let r := Server.azureAiGuard configured now nowLimit session ur in
  let valid := (Auth.validateSession now session).1 in
  let check := Server.checkRateLimit nowLimit (sessionUserId session) ur in
  (r.1 = Server.Pass ↔ configured = true ∧ valid = true ∧ check.1 = false) ∧
  (r.1 = Server.Pass → r.2 = check.2) ∧
  (r.1 ≠ Server.Pass → r.2 = ur) ∧
  (configured = false →
   r.1 = Server.Refuse 500 "Azure AI service not configured on the server.") ∧
  (configured = true → valid = false →
   r.1 = Server.Refuse 401 "Unauthorized: Invalid session.") ∧
  (configured = true → valid = true → check.1 = true →
   r.1 = Server.Refuse 429 "Too Many Requests.").
Proof.
  unfold Server.azureAiGuard.
  destruct configured; simpl; [|naive_solver].
  destruct (Auth.validateSession now session).1; simpl; [|naive_solver].
  destruct (Server.checkRateLimit nowLimit (sessionUserId session) ur)
    as [[] ur'] eqn:Hcheck; simpl; [|naive_solver].
  assert (ur' = ur) as ->.
  { destruct (checkRateLimit_effect nowLimit (sessionUserId session) ur)
      as (_ & Hlim & _). rewrite Hcheck in Hlim. by apply Hlim. }
  naive_solver.
Qed.

(** X17.  The downloader checks the session, then the limiter, then the URL: a
    request with a bad URL from a valid session that passes the limiter is
    answered 400, but its stamp has been recorded and counts against the
    user. *)
Theorem youtubeGuard_cases (now nowLimit : Z) (urlOk : bool) (session : value)
    (ur : Server.limiter) :
  let r := Server.youtubeGuard now nowLimit urlOk session ur in
  let valid := (Auth.validateSession now session).1 in
  let check := Server.checkRateLimit nowLimit (sessionUserId session) ur in
  (r.1 = Server.Pass ↔ valid = true ∧ check.1 = false ∧ urlOk = true) ∧
  (valid = false →
   r = (Server.Refuse 401 "Unauthorized: You must be logged in to use this feature.",
        ur)) ∧
  (valid = true → check.1 = true →
   r = (Server.Refuse 429 "Too Many Requests.", ur)) ∧
  (valid = true → check.1 = false → urlOk = false →
   r = (Server.Refuse 400 "Invalid YouTube URL.", check.2) ∧
   nowLimit ∈ default [] (r.2 !! sessionUserId session)).
Proof.
  unfold Server.youtubeGuard.
  destruct (Auth.validateSession now session).1; simpl; [|naive_solver].
  destruct (checkRateLimit_effect nowLimit (sessionUserId session) ur)
    as (_ & Hlim & Hpass).
  destruct (Server.checkRateLimit nowLimit (sessionUserId session) ur)
    as [[] ur'] eqn:Hcheck; simpl in *.
  - rewrite (Hlim eq_refl). naive_solver.
  - destruct (Hpass eq_refl) as (l & Hl & _ & Hin & _).
    destruct urlOk; simpl; [naive_solver|].
    split_and!; try naive_solver.
    intros _ _ _. split; [done|]. by rewrite Hl.
Qed.

Lemma youtubeGuard_cases_sample :
  Server.youtubeGuard 5000 5001 false (Sample.session_of "u1" 9000) ∅
    = (Server.Refuse 400 "Invalid YouTube URL.", {[ "u1" := [5001] ]}).
Proof.
  pose proof (proj1 (proj2 (proj2 (proj2
                (youtubeGuard_cases 5000 5001 false (Sample.session_of "u1" 9000) ∅)))
                eq_refl eq_refl eq_refl)) as Hrun.
  exact Hrun.
Defined.

(** * What the validators log *)

(** X18.  A validator writes exactly one warning when it rejects and none when it
    accepts, and each line of the comments router's validator is the line of
    the auth module's with [Comments ] put in front. *)
Theorem validateSession_logs (now : Z) (session : value) :
  length (Auth.validateSession now session).2
    = (if (Auth.validateSession now session).1 then 0 else 1)%nat ∧
  (Comments.validateSession now session).2
    = (λ line, "Comments " +:+ line) <$> (Auth.validateSession now session).2.
Proof.
  unfold Comments.validateSession, Auth.validateSession.
  repeat match goal with
    | |- context [if ?b then (false, _) else _] => destruct b
    end; split; reflexivity.
Qed.

(** * Every comment is placed once *)
Section partition.
Local Open Scope nat_scope.

Lemma concat_fmap_app {A} (g h : nat → list A) (l : list nat) :
  concat ((λ j, g j ++ h j) <$> l) ≡ₚ concat (g <$> l) ++ concat (h <$> l).
Proof.
  induction l as [|x l IH]; simpl; [done|]. rewrite IH.
  rewrite <- !app_assoc. apply Permutation_app_head.
  rewrite !app_assoc. apply Permutation_app_tail, Permutation_app_comm.
Qed.

Lemma concat_fmap_nil {A} (l : list nat) : concat ((λ _ : nat, @nil A) <$> l) = [].
Proof. induction l as [|x l IH]; [done|]. simpl. exact IH. Qed.

Lemma concat_one_hit {A} (k : A) (p : option nat) n :
  concat ((λ j, if decide (p = Some j) then [k] else []) <$> seq 0 n)
    = match p with
      | Some j => if decide (j < n) then [k] else []
      | None => []
      end.
Proof.
  induction n as [|n IH].
  - destruct p as [j0|]; [|done]. destruct (decide (j0 < 0)); [lia|done].
  - rewrite seq_S, fmap_app, concat_app, IH. simpl.
    destruct p as [j0|].
    + destruct (decide (j0 < n)).
      * rewrite decide_False by (intros [= ->]; lia).
        by rewrite decide_True by lia.
      * destruct (decide (j0 = n)) as [->|].
        -- rewrite decide_True by done. by rewrite decide_True by lia.
        -- rewrite decide_False by congruence. by rewrite decide_False by lia.
    + by rewrite decide_False by done.
Qed.

Lemma placedUpTo_partition (mc : list Comments.Comment) k :
  k ≤ length mc →
  (placedUpTo mc k).2 ++ concat (placedUpTo mc k).1 ≡ₚ seq 0 k.
Proof.
  induction k as [|k IH]; intros Hk.
  - change ((placedUpTo mc 0).2 ++ concat (placedUpTo mc 0).1)
      with (concat ((λ _ : nat, @nil nat) <$> seq 0 (length mc))).
    by rewrite concat_fmap_nil.
  - specialize (IH ltac:(lia)). unfold placedUpTo in *. cbn [fst snd] in *.
    rewrite seq_S. cbn [Nat.add].
    rewrite filter_snoc.
    rewrite (list_fmap_ext _ (λ j, filter (λ i, parentIdx mc i = Some j) (seq 0 k)
                                    ++ if decide (parentIdx mc k = Some j) then [k] else []))
      by (intros ? j _; exact (filter_snoc (λ i, parentIdx mc i = Some j) (seq 0 k) k)).
    rewrite concat_fmap_app, concat_one_hit.
    destruct (parentIdx mc k) as [j0|] eqn:Hpar.
    + rewrite decide_False by done. rewrite app_nil_r.
      rewrite decide_True by (by apply parentIdx_bound in Hpar as [? _]).
      by rewrite app_assoc, IH.
    + rewrite decide_True by done.
      rewrite app_nil_r. etrans; [|by rewrite <- IH].
      rewrite <- !app_assoc. apply Permutation_app_head, Permutation_app_comm.
Qed.

End partition.

(** X4.  The two passes of the thread builder lose and repeat nothing: the roots
    together with all reply arrays hold every comment of the list exactly
    once. *)
Theorem placeComments_partition (movieComments : list Comments.Comment) :
  (Comments.placeComments movieComments).2
    ++ concat (Comments.placeComments movieComments).1
  ≡ₚ seq 0 (length movieComments).
Proof. rewrite placeComments_closed. by apply placedUpTo_partition. Qed.

(** * A created root comment is shown *)

(** X9.  After a creation whose payload names no parent (none, or the empty
    string), for a movie whose id is not empty and is an own key of the
    comments of the document or no name that objects inherit, reading the
    thread of that movie shows the new comment among the roots. *)
Theorem created_root_is_listed (users : list User.t) (db : Comments.Db)
    (now nowId nowDate : Z) (movieId : string) (commentData : Comments.CommentData)
    (session : value) (user : User.t) :
  (Comments.validateSession now session).1 = true →
  Comments.findUser users (sessionUserId session) = Some user →
  movieId ≠ "" →
  arrayKey (Comments.comments db) movieId →
  Comments.truthyId (Comments.cd_parentId commentData) = false →
  ∃ c db' ts ups,
    Comments.postHandler users db now nowId nowDate movieId commentData session
      = (Comments.mkResponse 201 (Comments.Created c), Some db') ∧
    Comments.getHandler db' (Some movieId)
      = Some (Comments.mkResponse 200 (Comments.Thread ts ups), None) ∧
    c ∈ rootOf <$> ts.
Proof.
  intros Hvalid Huser Hmovie Hkey Hroot.
  pose proof (postHandler_run users db now nowId nowDate movieId commentData
                session user Hvalid Huser Hkey) as Hpost.
  set (c := Comments.newCommentOf user commentData nowId nowDate) in *.
  set (mc := storedComments db movieId ++ [c]) in *.
  set (db' := Comments.mkDb (<[movieId := mc]> (Comments.comments db))
                (Comments.upvotes db)) in *.
  assert (Comments.parentId c = None) as Hparent.
  { unfold c. simpl. by rewrite Hroot. }
  assert (arrayOrEmpty (Comments.comments db') movieId = Some mc) as Hread.
  { unfold arrayOrEmpty, readProp, db'. simpl. by rewrite lookup_insert_eq. }
  destruct (buildThread_shape mc) as (ts & Hts & Hroots & _).
  exists c, db', ts. eexists. split; [done|]. split.
  { unfold Comments.getHandler, truthy. rewrite bool_decide_false by done.
    rewrite Hread. simpl. by rewrite Hts. }
  rewrite Hroots. unfold commentsAt. apply list_elem_of_omap.
  assert (mc !! length (storedComments db movieId) = Some c) as Hc.
  { by apply list_lookup_middle. }
  exists (length (storedComments db movieId)). split; [|done].
  rewrite sortRoots_Permutation. apply list_elem_of_filter. split.
  - apply (parentIdx_None _ _ c Hc). by left.
  - apply elem_of_seq. unfold mc. rewrite length_app. simpl. lia.
Qed.

Lemma created_root_is_listed_sample :
  ∃ c db' ts ups,
    Comments.postHandler Sample.users Sample.familyDb 5000 5001 5002 "m"
        Sample.payload (Sample.session_of "u1" 9000)
      = (Comments.mkResponse 201 (Comments.Created c), Some db') ∧
    Comments.getHandler db' (Some "m")
      = Some (Comments.mkResponse 200 (Comments.Thread ts ups), None) ∧
    c ∈ rootOf <$> ts.
Proof.
  apply (created_root_is_listed Sample.users Sample.familyDb 5000 5001 5002 "m"
           Sample.payload (Sample.session_of "u1" 9000) (User.mk "u1" "Ada" "user"));
    [reflexivity|reflexivity|discriminate|left; by eexists|reflexivity].
Defined.
